(** * CLI reference generation: scanner and Markdown renderer

    A shallow embedding of
      - docs/scripts/cli_reference_generation/scan_cli.py
        (class [CLIScanner]),
      - docs/scripts/cli_reference_generation/transform_to_markdown.py
        (class [MarkdownGenerator]),
      - [MarkdownGenerator.slugify] of
        docs/scripts/aztecjs_reference_generation/transform_to_markdown.py,
    followed by the properties of the help-text prober, the two dialect
    parsers, the slug functions and the table of contents.

    Conventions of the embedding.
      - A Python [str] is a list of characters; a character is a code
        point below 256 (Rocq's [ascii], read as the first 256 code
        points of Unicode).  The character tables of Python
        ([str.isspace], [str.lower], [str.isalnum], the regex classes)
        are restricted to that range.
      - A Python [dict] that reaches the output is an association list
        in insertion order ([dict_set] overwrites in place, as
        assignment to an existing key does).
      - The [visited] attribute is a finite set of keys.
      - Regular expressions are terms of a small syntax, run by a
        backtracking matcher that tries alternatives in the order
        Python's [re] does.
      - The external program is a function from an argument vector to
        what was captured; the list of argument vectors that were run
        is recorded in the scanner's state.  Diagnostics written with
        [print] are not part of the model. *)

From Stdlib Require Import List Ascii String ZArith NArith Lia Bool.
From stdpp Require Import base gmap sets strings.
Import ListNotations.

Open Scope Z_scope.

(** ** Python strings *)

Definition str := list ascii.

(** [L "text"] is the Python literal ['text']. *)
Definition L (s : string) : str := list_ascii_of_string s.

Definition nl : ascii := ascii_of_N 10.
Definition esc : ascii := ascii_of_N 27.

Module Py.

Definition code (c : ascii) : N := N_of_ascii c.

Definition in_range (lo hi : N) (c : ascii) : bool :=
  (N.leb lo (code c) && N.leb (code c) hi)%bool.

Definition is_char (n : N) (c : ascii) : bool := N.eqb (code c) n.

(** [str.isspace] on one character, which is also the class [\s] of
    [re] on [str] patterns: TAB..CR, FS..US, SPACE, NEL, NBSP. *)
Definition isspace (c : ascii) : bool :=
  (in_range 9 13 c || in_range 28 32 c || is_char 133 c || is_char 160 c)%bool.

(** [A-Z], [a-z], [0-9]. *)
Definition is_AZ (c : ascii) : bool := in_range 65 90 c.
Definition is_az (c : ascii) : bool := in_range 97 122 c.
Definition is_09 (c : ascii) : bool := in_range 48 57 c.

(** [str.lower] on one character: A-Z and the upper-case letters of
    the Latin-1 block (all of 192..222 but the multiplication sign).
    On these code points [str.lower] gives one character for one
    character; above them it can lengthen a text (U+0130 becomes two
    code points), so nothing is stated about the length of a lowered
    text. *)
Definition lower_char (c : ascii) : ascii :=
  if (is_AZ c || (in_range 192 222 c && negb (is_char 215 c)))%bool
  then ascii_of_N (code c + 32) else c.

Definition lower (s : str) : str := map lower_char s.

(** [str.isalnum] on one character: letters, decimal digits, and the
    Latin-1 characters with a numeric value (superscripts 1-3, the
    three vulgar fractions). *)
Definition isalnum (c : ascii) : bool :=
  (is_09 c || is_AZ c || is_az c
   || is_char 170 c || is_char 181 c || is_char 186 c
   || is_char 178 c || is_char 179 c || is_char 185 c
   || in_range 188 190 c
   || (in_range 192 255 c && negb (is_char 215 c) && negb (is_char 247 c)))%bool.

Definition ascii_eqb (a b : ascii) : bool := Ascii.eqb a b.

Fixpoint str_eqb (a b : str) : bool :=
  match a, b with
  | [], [] => true
  | x :: a', y :: b' => (ascii_eqb x y && str_eqb a' b')%bool
  | _, _ => false
  end.

(** [s.startswith(p)] *)
Fixpoint startswith (p s : str) : bool :=
  match p, s with
  | [], _ => true
  | x :: p', y :: s' => (ascii_eqb x y && startswith p' s')%bool
  | _ :: _, [] => false
  end.

(** [s.endswith(p)] *)
Definition endswith (p s : str) : bool := startswith (rev p) (rev s).

(** [sub in s] *)
Fixpoint contains (sub s : str) : bool :=
  (startswith sub s ||
   match s with
   | [] => false
   | _ :: s' => contains sub s'
   end)%bool.

Fixpoint lstrip_with (p : ascii -> bool) (s : str) : str :=
  match s with
  | c :: s' => if p c then lstrip_with p s' else s
  | [] => []
  end.

Definition rstrip_with (p : ascii -> bool) (s : str) : str :=
  rev (lstrip_with p (rev s)).

Definition strip_with (p : ascii -> bool) (s : str) : str :=
  rstrip_with p (lstrip_with p s).

(** [s.strip()] *)
Definition strip (s : str) : str := strip_with isspace s.

(** [s.replace(old, new)] for a non-empty [old]: occurrences are
    found from the left and do not overlap.  [skip] counts the
    characters of an occurrence that are still to be passed over. *)
Fixpoint replace_go (old new : str) (skip : nat) (s : str) : str :=
  match s with
  | [] => []
  | c :: s' =>
      match skip with
      | S k => replace_go old new k s'
      | O =>
          if startswith old s
          then new ++ replace_go old new (Nat.pred (length old)) s'
          else c :: replace_go old new O s'
      end
  end.

Definition replace (old new s : str) : str := replace_go old new O s.

(** [s.split(sep)] for a one-character separator. *)
Fixpoint split_on (sep : ascii) (s : str) : list str :=
  match s with
  | [] => [[]]
  | c :: s' =>
      if ascii_eqb c sep then [] :: split_on sep s'
      else match split_on sep s' with
           | w :: ws => (c :: w) :: ws
           | [] => [[c]]
           end
  end.

(** [s.split()]: maximal runs of non-whitespace characters. *)
Fixpoint split_ws_go (cur : str) (s : str) : list str :=
  match s with
  | [] => match cur with [] => [] | _ => [rev cur] end
  | c :: s' =>
      if isspace c
      then match cur with
           | [] => split_ws_go [] s'
           | _ => rev cur :: split_ws_go [] s'
           end
      else split_ws_go (c :: cur) s'
  end.

Definition split_ws (s : str) : list str := split_ws_go [] s.

(** [sep.join(parts)] *)
Fixpoint join (sep : str) (parts : list str) : str :=
  match parts with
  | [] => []
  | [p] => p
  | p :: rest => p ++ sep ++ join sep rest
  end.

(** [s * n] for an integer [n] (empty when [n <= 0]). *)
Definition times (s : str) (n : Z) : str :=
  concat (repeat s (Z.to_nat n)).

(** Truth value of a string: non-empty. *)
Definition truthy (s : str) : bool :=
  match s with [] => false | _ => true end.

End Py.

(** ** Regular expressions

    The fragment of Python's [re] syntax that the scanner uses:
    character classes, greedy and lazy repetition of a class, greedy
    optional groups, capture groups, and the anchors [^] and [$]. *)

Module Re.

Inductive re : Type :=
| Eps
| Chr (p : ascii -> bool)                         (* one character of a class *)
| Rep (p : ascii -> bool) (lo : nat) (hi : option nat)
                                                    (* p{lo,hi}, p{lo,} greedy *)
| RepLazy (p : ascii -> bool) (lo : nat)           (* p{lo,}? *)
| Opt (r : re)                                     (* (?:r)? greedy *)
| Seq (r1 r2 : re)
| Grp (n : nat) (r : re)                           (* capture group number n *)
| Bol                                              (* ^ *)
| Eol.                                             (* $ *)

(** Classes. *)
Definition any (c : ascii) : bool := negb (Py.ascii_eqb c nl).         (* . *)
Definition ch (x : ascii) (c : ascii) : bool := Py.ascii_eqb c x.
Definition space : ascii -> bool := Py.isspace.                         (* \s *)
Definition nonspace (c : ascii) : bool := negb (Py.isspace c).          (* [^\s] *)
Definition neither (p q : ascii -> bool) (c : ascii) : bool :=
  (negb (p c) && negb (q c))%bool.
Definition either (p q : ascii -> bool) (c : ascii) : bool :=
  (p c || q c)%bool.
Definition other_than (x : ascii) (c : ascii) : bool :=
  negb (Py.ascii_eqb c x).                                              (* [^x] *)

Fixpoint lit (s : str) : re :=
  match s with
  | [] => Eps
  | c :: s' => Seq (Chr (ch c)) (lit s')
  end.

Fixpoint cat (rs : list re) : re :=
  match rs with
  | [] => Eps
  | [r] => r
  | r :: rs' => Seq r (cat rs')
  end.

Definition plus (p : ascii -> bool) : re := Rep p 1 None.      (* p+ *)
Definition star (p : ascii -> bool) : re := Rep p 0 None.      (* p* *)
Definition at_least (n : nat) (p : ascii -> bool) : re := Rep p n None.   (* p{n,} *)
Definition exactly (n : nat) (p : ascii -> bool) : re := Rep p n (Some n). (* p{n} *)

(** The matcher's position: the text before it (last character
    first), the text after it, and the groups captured so far (most
    recent first). *)
Record mstate : Type := MState {
  consumed : str;
  rest : str;
  groups : list (nat * str)
}.

Section Run.
Context {A : Type}.

(** Greedy repetition: take as many characters as allowed, then
    give characters back one at a time. *)
Fixpoint rep_greedy (p : ascii -> bool) (lo : nat) (hi : option nat)
         (pre s : str) (k : str -> str -> option A) : option A :=
  let stop := if Nat.eqb lo 0 then k pre s else None in
  match hi with
  | Some O => stop
  | _ =>
      match s with
      | c :: s' =>
          if p c then
            match rep_greedy p (Nat.pred lo) (option_map Nat.pred hi) (c :: pre) s' k with
            | Some x => Some x
            | None => stop
            end
          else stop
      | [] => stop
      end
  end.

(** Lazy repetition: take as few characters as allowed, then one
    more at a time. *)
Fixpoint rep_lazy (p : ascii -> bool) (lo : nat)
         (pre s : str) (k : str -> str -> option A) : option A :=
  match (if Nat.eqb lo 0 then k pre s else None) with
  | Some x => Some x
  | None =>
      match s with
      | c :: s' =>
          if p c then rep_lazy p (Nat.pred lo) (c :: pre) s' k else None
      | [] => None
      end
  end.

Definition at_bol (multiline : bool) (m : mstate) : bool :=
  match consumed m with
  | [] => true
  | c :: _ => (multiline && Py.ascii_eqb c nl)%bool
  end.

Definition at_eol (multiline : bool) (m : mstate) : bool :=
  match rest m with
  | [] => true
  | c :: s' =>
      (Py.ascii_eqb c nl &&
       (multiline || match s' with [] => true | _ => false end))%bool
  end.

(** [run ml r m k]: match [r] at position [m], then continue with
    [k]; the first alternative for which [k] succeeds wins. *)
Fixpoint run (multiline : bool) (r : re) (m : mstate)
         (k : mstate -> option A) : option A :=
  match r with
  | Eps => k m
  | Chr p =>
      match rest m with
      | c :: s' => if p c then k (MState (c :: consumed m) s' (groups m)) else None
      | [] => None
      end
  | Rep p lo hi =>
      rep_greedy p lo hi (consumed m) (rest m)
                 (fun pre s => k (MState pre s (groups m)))
  | RepLazy p lo =>
      rep_lazy p lo (consumed m) (rest m)
               (fun pre s => k (MState pre s (groups m)))
  | Opt r1 =>
      match run multiline r1 m k with
      | Some x => Some x
      | None => k m
      end
  | Seq r1 r2 => run multiline r1 m (fun m' => run multiline r2 m' k)
  | Grp n r1 =>
      run multiline r1 m
          (fun m' =>
             let len := (length (consumed m') - length (consumed m))%nat in
             k (MState (consumed m') (rest m')
                       ((n, rev (firstn len (consumed m'))) :: groups m')))
  | Bol => if at_bol multiline m then k m else None
  | Eol => if at_eol multiline m then k m else None
  end.
End Run.

Definition start (s : str) : mstate := MState [] s [].

(** [re.match(r, s)] *)
Definition rmatch (r : re) (s : str) : option mstate :=
  run false r (start s) Some.

(** [re.search(r, s)], with the text before the match (reversed). *)
Fixpoint search_go (multiline : bool) (r : re) (pre s : str)
  : option (str * mstate) :=
  match run multiline r (MState pre s []) Some with
  | Some m => Some (pre, m)
  | None =>
      match s with
      | [] => None
      | c :: s' => search_go multiline r (c :: pre) s'
      end
  end.

Definition search (multiline : bool) (r : re) (s : str) : option mstate :=
  option_map snd (search_go multiline r [] s).

(** [m.group(n)]: [None] when the group took no part in the match. *)
Fixpoint lookup_group (n : nat) (gs : list (nat * str)) : option str :=
  match gs with
  | [] => None
  | (i, t) :: gs' => if Nat.eqb i n then Some t else lookup_group n gs'
  end.

Definition group (n : nat) (m : mstate) : option str :=
  lookup_group n (groups m).

(** [re.split(r, s, maxsplit=1)] for a pattern that matches no empty
    text: the text before the first match and the text after it. *)
Definition split1 (r : re) (s : str) : list str :=
  match search_go false r [] s with
  | Some (pre, m) => [rev pre; rest m]
  | None => [s]
  end.

(** [r.sub('', s)]: every match, found from the left, is removed.
    [skip] counts the characters of a match still to be dropped. *)
Fixpoint sub_empty_go (r : re) (skip : nat) (pre s : str) : str :=
  match s with
  | [] => []
  | c :: s' =>
      match skip with
      | S k => sub_empty_go r k (c :: pre) s'
      | O =>
          match run false r (MState pre s []) Some with
          | Some m =>
              match (length (consumed m) - length pre)%nat with
              | S k => sub_empty_go r k (c :: pre) s'
              | O => c :: sub_empty_go r O (c :: pre) s'
              end
          | None => c :: sub_empty_go r O (c :: pre) s'
          end
      end
  end.

Definition sub_empty (r : re) (s : str) : str := sub_empty_go r O [] s.

End Re.

(** ** Python values that reach the JSON output *)

#[warnings="-register-all"]
Inductive value : Type :=
| VNone
| VStr (s : str)
| VList (l : list value)
| VDict (d : list (str * value)).

Definition dict := list (str * value).

Fixpoint dict_get (k : str) (d : dict) : option value :=
  match d with
  | [] => None
  | (k', v) :: d' => if Py.str_eqb k' k then Some v else dict_get k d'
  end.

(** [k in d] *)
Definition dict_has (k : str) (d : dict) : bool :=
  match dict_get k d with Some _ => true | None => false end.

(** [d[k] = v]: an existing key keeps its place, a new key goes last. *)
Fixpoint dict_set (k : str) (v : value) (d : dict) : dict :=
  match d with
  | [] => [(k, v)]
  | (k', v') :: d' =>
      if Py.str_eqb k' k then (k', v) :: d' else (k', v') :: dict_set k v d'
  end.

(** Readers for fields at the type the scanner writes them.  In a tree
    that the scanner built, every field that the renderer reads is
    there at that type.  On another dictionary the code raises
    ([KeyError] on [cmd['signature']], [AttributeError] on [.items()]
    of a value that is no dictionary) where a reader answers its
    default: the theorems about the renderer take their trees from
    the scanner. *)
Definition get_str (k : str) (d : dict) : str :=
  match dict_get k d with Some (VStr s) => s | _ => [] end.

Definition get_list (k : str) (d : dict) : list value :=
  match dict_get k d with Some (VList l) => l | _ => [] end.

Definition get_dict (k : str) (d : dict) : dict :=
  match dict_get k d with Some (VDict m) => m | _ => [] end.

Definition as_dict (v : value) : dict :=
  match v with VDict d => d | _ => [] end.

Definition opt_value (o : option str) : value :=
  match o with Some s => VStr s | None => VNone end.

(** ** scan_cli.py: class CLIScanner *)

Module CLIScanner.
Import Re.

(** *** run_command *)

(** [\x1b\[[0-9;]*[a-zA-Z]] *)
Definition ansi_pattern : re :=
  cat [ Chr (ch esc); Chr (ch "["); star (either Py.is_09 (ch ";"));
        Chr (either Py.is_az Py.is_AZ) ].

Definition strip_ansi (output : str) : str := sub_empty ansi_pattern output.

(** What [subprocess.run] gives for an argument vector: the captured
    [stdout] and [stderr], or nothing when it raises (time-out, or any
    other exception). *)
Definition process := list str -> option (str * str).

Definition run_command (subprocess_run : process) (cmd : list str) : option str :=
  match subprocess_run cmd with
  | Some (stdout, stderr) => Some (strip_ansi (stdout ++ stderr))
  | None => None
  end.

(** *** parse_commander_help *)

Inductive section_cursor : Type := NoSection | InOptions | InCommands.

Record commander_state : Type := CommanderState {
  c_usage : str;
  c_description : str;
  c_options : list value;
  c_commands : list value;
  c_section : section_cursor
}.

(** The pattern [\s+(-[^,\s]+)?(?:,\s+)?(--[^\s]+(?:\s+<[^>]+>)?)\s+G]
    where [G] is the third group, any number of [.] *)
Definition commander_option_re : re :=
  cat [ plus space;
        Opt (Grp 1 (cat [Chr (ch "-"); plus (neither (ch ",") space)]));
        Opt (cat [Chr (ch ","); plus space]);
        Grp 2 (cat [ lit (L "--"); plus nonspace;
                     Opt (cat [ plus space; Chr (ch "<");
                                plus (other_than ">"); Chr (ch ">") ]) ]);
        plus space;
        Grp 3 (star any) ].

Definition group_or_empty (n : nat) (m : mstate) : str :=
  match group n m with Some s => s | None => [] end.

Definition is_options_section (c : section_cursor) : bool :=
  match c with InOptions => true | _ => false end.
Definition is_commands_section (c : section_cursor) : bool :=
  match c with InCommands => true | _ => false end.
Definition is_no_section (c : section_cursor) : bool :=
  match c with NoSection => true | _ => false end.

Definition set_usage (u : str) (st : commander_state) : commander_state :=
  CommanderState u (c_description st) (c_options st) (c_commands st) (c_section st).
Definition set_description (d : str) (st : commander_state) : commander_state :=
  CommanderState (c_usage st) d (c_options st) (c_commands st) (c_section st).
Definition set_section (c : section_cursor) (st : commander_state) : commander_state :=
  CommanderState (c_usage st) (c_description st) (c_options st) (c_commands st) c.
Definition add_option (o : value) (st : commander_state) : commander_state :=
  CommanderState (c_usage st) (c_description st) (c_options st ++ [o])
                 (c_commands st) (c_section st).
Definition add_command (c : value) (st : commander_state) : commander_state :=
  CommanderState (c_usage st) (c_description st) (c_options st)
                 (c_commands st ++ [c]) (c_section st).

(** The body of the [for] loop, for one line. *)
Definition commander_line (st : commander_state) (line : str) : commander_state :=
  if Py.startswith (L "Usage:") (Py.strip line) then
    set_usage (Py.strip (Py.replace (L "Usage:") [] line)) st
  else if Py.contains (L "Options:") line then
    set_section InOptions st
  else if (Py.contains (L "Commands:") line || Py.contains (L "Arguments:") line)%bool then
    set_section InCommands st
  else if (Py.truthy (Py.strip line) && negb (Py.startswith (L " ") line)
           && is_no_section (c_section st))%bool then
    if (Py.truthy (c_usage st) && negb (Py.truthy (c_description st)))%bool
    then set_description (Py.strip line) st
    else st
  else if (is_options_section (c_section st)
           && Py.startswith (L "-") (Py.strip line))%bool then
    match rmatch commander_option_re line with
    | Some option_match =>
        let short_flag := group_or_empty 1 option_match in
        let long_flag := group_or_empty 2 option_match in
        let description := Py.strip (group_or_empty 3 option_match) in
        add_option (VDict [ (L "short", VStr short_flag);
                            (L "long", VStr long_flag);
                            (L "description", VStr description) ]) st
    | None => st
    end
  else if (is_commands_section (c_section st) && Py.truthy (Py.strip line)
           && negb (Py.startswith (L "Additional") (Py.strip line)))%bool then
    let stripped := Py.strip line in
    if (Py.truthy stripped && negb (Py.startswith (L "-") stripped))%bool then
      match split1 (at_least 2 space) (Py.strip line) with
      | [part0; part1] =>
          let cmd_full := Py.strip part0 in
          let description := Py.strip part1 in
          (* cmd_full starts with a character that is not white space,
             so the list of its words has a first element *)
          let cmd_name := hd [] (Py.split_ws cmd_full) in
          add_command (VDict [ (L "name", VStr cmd_name);
                               (L "signature", VStr cmd_full);
                               (L "description", VStr description) ]) st
      | _ => st
      end
    else st
  else st.

Definition commander_init : commander_state :=
  CommanderState [] [] [] [] NoSection.

Definition commander_result (st : commander_state) : dict :=
  [ (L "usage", VStr (c_usage st));
    (L "description", VStr (c_description st));
    (L "options", VList (c_options st));
    (L "commands", VList (c_commands st)) ].

Definition parse_commander_help (help_text : str) : dict :=
  let lines := Py.split_on nl help_text in
  commander_result (fold_left commander_line lines commander_init).

(** *** parse_custom_help *)

(** The option and section dictionaries are changed in place while
    the lines are read, through the variables [current_section] and
    [current_option]; here these are positions in the list of
    sections, and the dictionaries are records until the end. *)
Record custom_option : Type := CustomOption {
  o_flag : str;
  o_default : option str;
  o_env : option str;
  o_description : str
}.

Record custom_section : Type := CustomSection {
  s_name : str;
  s_options : list custom_option
}.

Record custom_state : Type := CustomState {
  sections : list custom_section;
  current_section : option nat;            (* index in [sections] *)
  current_option : option (nat * nat)      (* section index, option index *)
}.

(** [^\s{2}([A-Z][A-Z\s]+?)\s*$] *)
Definition section_re : re :=
  cat [ Bol; exactly 2 space;
        Grp 1 (cat [Chr Py.is_AZ; RepLazy (either Py.is_AZ space) 1]);
        star space; Eol ].

(** [^\s+(--.+?)\s{2,}] *)
Definition custom_option_re : re :=
  cat [ Bol; plus space; Grp 1 (cat [lit (L "--"); RepLazy any 1]);
        at_least 2 space ].

(** [\(default:\s*([^)]+)\)] *)
Definition default_re : re :=
  cat [ lit (L "(default:"); star space; Grp 1 (plus (other_than ")"));
        Chr (ch ")") ].

(** [\(\$([^)]+)\)] *)
Definition env_re : re :=
  cat [ lit (L "($"); Grp 1 (plus (other_than ")")); Chr (ch ")") ].

(** [^\s{10,}(.+)] *)
Definition description_re : re :=
  cat [ Bol; at_least 10 space; Grp 1 (plus any) ].

Definition append_option (i : nat) (o : custom_option)
           (secs : list custom_section) : list custom_section :=
  match secs !! i with
  | Some sec => <[ i := CustomSection (s_name sec) (s_options sec ++ [o]) ]> secs
  | None => secs
  end.

Definition options_of (i : nat) (secs : list custom_section) : list custom_option :=
  match secs !! i with
  | Some sec => s_options sec
  | None => []
  end.

(** [current_option["description"] = d] *)
Definition assign_description (ptr : nat * nat) (d : str)
           (secs : list custom_section) : list custom_section :=
  let (i, j) := ptr in
  match secs !! i with
  | Some sec =>
      match s_options sec !! j with
      | Some o =>
          <[ i := CustomSection (s_name sec)
                    (<[ j := CustomOption (o_flag o) (o_default o) (o_env o) d ]>
                       (s_options sec)) ]> secs
      | None => secs
      end
  | None => secs
  end.

Definition stripped_group1 (m : option mstate) : option str :=
  match m with
  | Some m' => Some (Py.strip (group_or_empty 1 m'))
  | None => None
  end.

Definition is_section_header (line : str) : option mstate :=
  match rmatch section_re line with
  | Some m => if negb (Py.startswith (L "-") (Py.strip line)) then Some m else None
  | None => None
  end.

(** The body of the [for] loop, for one line. *)
Definition custom_line (st : custom_state) (line : str) : custom_state :=
  match is_section_header line with
  | Some section_match =>
      let section_name := Py.strip (group_or_empty 1 section_match) in
      CustomState (sections st ++ [CustomSection section_name []])
                  (Some (length (sections st)))
                  (current_option st)
  | None =>
      match current_section st with
      | Some i =>
          match rmatch custom_option_re line with
          | Some option_match =>
              let option_flag := Py.strip (group_or_empty 1 option_match) in
              let default_match := search false default_re line in
              let env_match := search false env_re line in
              let o := CustomOption option_flag (stripped_group1 default_match)
                                    (stripped_group1 env_match) [] in
              CustomState (append_option i o (sections st))
                          (Some i)
                          (Some (i, length (options_of i (sections st))))
          | None =>
              match current_option st with
              | Some ptr =>
                  if (Py.truthy (Py.strip line)
                      && negb (Py.startswith (L "--") (Py.strip line)))%bool then
                    match rmatch description_re line with
                    | Some desc_match =>
                        CustomState
                          (assign_description ptr
                             (Py.strip (group_or_empty 1 desc_match)) (sections st))
                          (current_section st) (current_option st)
                    | None => st
                    end
                  else st
              | None => st
              end
          end
      | None => st
      end
  end.

Definition custom_init : custom_state := CustomState [] None None.

Definition custom_loop (st : custom_state) (lines : list str) : custom_state :=
  fold_left custom_line lines st.

Definition option_value (o : custom_option) : value :=
  VDict [ (L "flag", VStr (o_flag o));
          (L "default", opt_value (o_default o));
          (L "env", opt_value (o_env o));
          (L "description", VStr (o_description o)) ].

Definition section_value (sec : custom_section) : value :=
  VDict [ (L "name", VStr (s_name sec));
          (L "options", VList (map option_value (s_options sec))) ].

Definition custom_result (st : custom_state) : dict :=
  [ (L "usage", VStr []);
    (L "description", VStr []);
    (L "sections", VList (map section_value (sections st))) ].

Definition parse_custom_help (help_text : str) : dict :=
  custom_result (custom_loop custom_init (Py.split_on nl help_text)).

(** *** scan_command *)

(** The scanner object: the [visited] set, and the argument vectors
    handed to [run_command] so far, oldest first. *)
Record scanner : Type := Scanner {
  visited : gset str;
  invoked : list (list str)
}.

Definition error_node (kind : string) : dict := [ (L "error", VStr (L kind)) ].

Definition error_markers : list str :=
  [ L "ERROR: cli Error in command execution";
    L "TypeError: Do not know how to serialize";
    L "TypeError:";
    L "Error:";
    L "at JSON.stringify" ].

(** [any(marker in help_output for marker in error_markers)] *)
Definition has_error_marker (help_output : str) : bool :=
  existsb (fun marker => Py.contains marker help_output) error_markers.

Definition execution_error (help_output : str) : dict :=
  [ (L "error", VStr (L "command_execution_error"));
    (L "error_type",
      VStr (if Py.contains (L "BigInt") help_output
            then L "bigint_serialization" else L "unknown"));
    (L "error_preview", VStr (firstn 200 help_output)) ].

(** [parent_help and help_output.strip() == parent_help.strip()] *)
Definition same_as_parent (parent_help : option str) (help_output : str) : bool :=
  match parent_help with
  | Some ph => (Py.truthy ph && Py.str_eqb (Py.strip help_output) (Py.strip ph))%bool
  | None => false
  end.

(** [^\s{2}[A-Z][A-Z\s]+$] with [re.MULTILINE] *)
Definition custom_format_re : re :=
  cat [ Bol; exactly 2 space; Chr Py.is_AZ; plus (either Py.is_AZ space); Eol ].

Definition command_name (cmd : value) : str := get_str (L "name") (as_dict cmd).

Section Scan.
Variable subprocess_run : process.

(** The loop over [parsed.get("commands", [])]; [scan] is the
    recursive call. *)
Fixpoint scan_subcommands
         (scan : list str -> Z -> option str -> scanner -> option (dict * scanner))
         (cmd_path : list str) (depth : Z) (help_output : str)
         (cmds : list value) (subcommands : dict) (sc : scanner)
  : option (dict * scanner) :=
  match cmds with
  | [] => Some (subcommands, sc)
  | cmd :: cmds' =>
      let cmd_name := command_name cmd in
      if negb (Py.str_eqb cmd_name (L "help")) then
        match scan (cmd_path ++ [cmd_name]) (depth + 1) (Some help_output) sc with
        | Some (sub_result, sc') =>
            scan_subcommands scan cmd_path depth help_output cmds'
                             (dict_set cmd_name (VDict sub_result) subcommands) sc'
        | None => None
        end
      else
        scan_subcommands scan cmd_path depth help_output cmds' subcommands sc
  end.

(** [scan_command], with the number of nested calls still allowed;
    [None] when that number is used up. *)
Fixpoint scan_command_rec (fuel : nat) (cmd_path : list str) (depth : Z)
         (parent_help : option str) (sc : scanner) : option (dict * scanner) :=
  let cmd_str := Py.join (L " ") cmd_path in
  if bool_decide (cmd_str ∈ visited sc) then
    Some (error_node "already_visited", sc)
  else
    let sc1 := Scanner ({[ cmd_str ]} ∪ visited sc) (invoked sc) in
    if depth >? 5 then
      Some (error_node "max_depth_exceeded", sc1)
    else
      let argv := cmd_path ++ [L "--help"] in
      let sc2 := Scanner (visited sc1) (invoked sc1 ++ [argv]) in
      match run_command subprocess_run argv with
      | None => Some (error_node "no_help_output", sc2)
      | Some help_output =>
          if negb (Py.truthy help_output) then
            Some (error_node "no_help_output", sc2)
          else if same_as_parent parent_help help_output then
            Some (error_node "invalid_subcommand", sc2)
          else if has_error_marker help_output then
            Some (execution_error help_output, sc2)
          else if (Py.contains (L "Usage:") help_output
                   && Py.contains (L "Commands:") help_output)%bool then
            let parsed := parse_commander_help help_output in
            let parsed := dict_set (L "format") (VStr (L "commander")) parsed in
            match fuel with
            | O => None
            | S fuel' =>
                match scan_subcommands (scan_command_rec fuel') cmd_path depth
                                       help_output (get_list (L "commands") parsed)
                                       [] sc2 with
                | Some (subcommands, sc3) =>
                    Some (match subcommands with
                          | [] => parsed
                          | _ => dict_set (L "subcommands") (VDict subcommands) parsed
                          end, sc3)
                | None => None
                end
            end
          else
            match search true custom_format_re help_output with
            | Some _ =>
                Some (dict_set (L "format") (VStr (L "custom"))
                               (parse_custom_help help_output), sc2)
            | None =>
                Some ([ (L "format", VStr (L "raw"));
                        (L "raw_help", VStr help_output) ], sc2)
            end
      end.

(** Calls nest at most up to depth 6, where the depth guard answers. *)
Definition scan_fuel (depth : Z) : nat := Z.to_nat (6 - depth).

Definition scan_command (cmd_path : list str) (depth : Z)
           (parent_help : option str) (sc : scanner) : option (dict * scanner) :=
  scan_command_rec (scan_fuel depth) cmd_path depth parent_help sc.

(** A new scanner, as [__init__] makes it. *)
Definition new_scanner : scanner := Scanner ∅ [].

(** [scan], given the output of [date]. *)
Definition scan (base_command : str) (scanned_at : str) : option dict :=
  match scan_command [base_command] 0 None new_scanner with
  | Some (data, _) =>
      Some [ (L "command", VStr base_command);
             (L "scanned_at", VStr scanned_at);
             (L "data", VDict data) ]
  | None => None
  end.
End Scan.

End CLIScanner.

(** ** cli_reference_generation/transform_to_markdown.py: class MarkdownGenerator *)

Module MarkdownGenerator.

(** The merged configuration dictionary. *)
Record config : Type := Config {
  title : str;
  include_toc : bool;
  include_metadata : bool;
  heading_prefix : str;
  show_usage : bool;
  show_env_vars : bool;
  max_depth : Z;
  option_table_format : str
}.

Definition get_default_config : config :=
  Config (L "CLI Reference") true true (L "#") true true 5 (L "list").

Definition slugify (text : str) : str :=
  Py.replace (L "/") (L "-") (Py.replace (L " ") (L "-") (Py.lower text)).

Definition escape_html_entities (text : str) : str :=
  Py.replace (L ">") (L "&gt;") (Py.replace (L "<") (L "&lt;") text).

(** [cmd_data.get("format") == f] *)
Definition format_is (f : string) (cmd_data : dict) : bool :=
  match dict_get (L "format") cmd_data with
  | Some (VStr s) => Py.str_eqb s (L f)
  | _ => false
  end.

Definition flags_of (opt : dict) : str :=
  Py.strip (get_str (L "short") opt ++ L " " ++ get_str (L "long") opt).

Definition render_options_table (options : list value) : str :=
  Py.join [nl]
    ([ L "| Option | Description |"; L "|--------|-------------|" ]
     ++ map (fun opt =>
               let flags := flags_of (as_dict opt) in
               let desc := Py.replace (L "|") (L "\|")
                             (escape_html_entities
                                (get_str (L "description") (as_dict opt))) in
               L "| `" ++ flags ++ L "` | " ++ desc ++ L " |")
            options).

Definition render_options_list (options : list value) : str :=
  Py.join [nl]
    (map (fun opt =>
            let flags := flags_of (as_dict opt) in
            let desc := escape_html_entities
                          (get_str (L "description") (as_dict opt)) in
            L "- `" ++ flags ++ L "` - " ++ desc)
         options).

(** Truth value of an optional list field. *)
Definition nonempty {A : Type} (l : list A) : bool :=
  match l with [] => false | _ => true end.

Section Render.
Variable cfg : config.

Definition render_commander_command (cmd_data : dict) (depth : Z) : str :=
  let description := get_str (L "description") cmd_data in
  let usage := get_str (L "usage") cmd_data in
  let commands := get_list (L "commands") cmd_data in
  let options := get_list (L "options") cmd_data in
  Py.join [nl]
    ((if Py.truthy description
      then [escape_html_entities description ++ [nl]] else [])
     ++ (if (show_usage cfg && Py.truthy usage)%bool
         then [L "**Usage:**"; L "```bash"; usage; L "```" ++ [nl]] else [])
     ++ (if nonempty commands
         then [L "**Available Commands:**" ++ [nl]]
              ++ map (fun cmd =>
                        L "- `" ++ get_str (L "signature") (as_dict cmd) ++ L "` - "
                          ++ escape_html_entities
                               (get_str (L "description") (as_dict cmd)))
                     commands
              ++ [[]]
         else [])
     ++ (if nonempty options
         then [L "**Options:**" ++ [nl]]
              ++ [if Py.str_eqb (option_table_format cfg) (L "table")
                  then render_options_table options
                  else render_options_list options]
              ++ [[]]
         else [])).

Definition render_custom_option (opt : dict) : list str :=
  let default := get_str (L "default") opt in
  let description := get_str (L "description") opt in
  let env := get_str (L "env") opt in
  [ L "- `" ++ get_str (L "flag") opt ++ L "`"
      ++ (if Py.truthy default then L " (default: `" ++ default ++ L "`)" else []) ]
  ++ (if Py.truthy description
      then [L "  " ++ escape_html_entities description] else [])
  ++ (if (show_env_vars cfg && Py.truthy env)%bool
      then [L "  *Environment: `$" ++ env ++ L "`*"] else [])
  ++ [[]].

Definition render_custom_command (cmd_data : dict) (depth : Z) : str :=
  let description := get_str (L "description") cmd_data in
  Py.join [nl]
    ((if Py.truthy description
      then [escape_html_entities description ++ [nl]] else [])
     ++ flat_map
          (fun section =>
             [L "**" ++ get_str (L "name") (as_dict section) ++ L "**" ++ [nl]]
             ++ flat_map (fun opt => render_custom_option (as_dict opt))
                         (get_list (L "options") (as_dict section)))
          (get_list (L "sections") cmd_data)).

(** The loop of [generate_toc] over the sub-commands; [toc] is the
    recursive call.  An empty sub-table is left out. *)
Fixpoint toc_subcommands (toc : dict -> str -> Z -> option str)
         (cmd_name : str) (depth : Z) (subs : dict) : option (list str) :=
  match subs with
  | [] => Some []
  | (sub_name, sub_data) :: subs' =>
      let full_name := cmd_name ++ L " " ++ sub_name in
      match toc (as_dict sub_data) full_name (depth + 1) with
      | Some sub_toc =>
          match toc_subcommands toc cmd_name depth subs' with
          | Some lines => Some (if Py.truthy sub_toc then sub_toc :: lines else lines)
          | None => None
          end
      | None => None
      end
  end.

(** [generate_toc], with the number of nested calls still allowed. *)
Fixpoint generate_toc_rec (fuel : nat) (cmd_data : dict) (cmd_name : str)
         (depth : Z) : option str :=
  if depth >? max_depth cfg then Some []
  else
    let indent := Py.times (L "  ") depth in
    let slug := slugify cmd_name in
    let line := indent ++ L "- [" ++ cmd_name ++ L "](#" ++ slug ++ L ")" in
    if (format_is "commander" cmd_data && dict_has (L "subcommands") cmd_data)%bool then
      match fuel with
      | O => None
      | S fuel' =>
          match toc_subcommands (generate_toc_rec fuel') cmd_name depth
                                (get_dict (L "subcommands") cmd_data) with
          | Some lines => Some (Py.join [nl] (line :: lines))
          | None => None
          end
      end
    else Some (Py.join [nl] [line]).

(** Below [depth], calls nest until the depth guard answers. *)
Definition render_fuel (depth : Z) : nat := Z.to_nat (max_depth cfg + 1 - depth).

Definition generate_toc (cmd_data : dict) (cmd_name : str) (depth : Z) : option str :=
  generate_toc_rec (render_fuel depth) cmd_data cmd_name depth.

(** The loop of [generate_command_docs] over the sub-commands. *)
Fixpoint docs_subcommands (docs : str -> dict -> Z -> option str)
         (cmd_name : str) (depth : Z) (subs : dict) : option (list str) :=
  match subs with
  | [] => Some []
  | (sub_name, sub_data) :: subs' =>
      let full_name := cmd_name ++ L " " ++ sub_name in
      match docs full_name (as_dict sub_data) (depth + 1) with
      | Some text =>
          match docs_subcommands docs cmd_name depth subs' with
          | Some rest => Some (text :: rest)
          | None => None
          end
      | None => None
      end
  end.

Definition error_type_of (cmd_data : dict) : str :=
  match dict_get (L "error_type") cmd_data with
  | Some (VStr s) => s
  | _ => L "unknown"
  end.

(** [generate_command_docs], with the number of nested calls still
    allowed. *)
Fixpoint generate_command_docs_rec (fuel : nat) (cmd_name : str)
         (cmd_data : dict) (depth : Z) : option str :=
  if depth >? max_depth cfg then Some []
  else
    let heading := Py.times (L "#") (depth + 1) in
    if dict_has (L "error") cmd_data then
      if Py.str_eqb (error_type_of cmd_data) (L "bigint_serialization") then
        Some (heading ++ L " " ++ cmd_name ++ [nl; nl]
              ++ L "*Help for this command is currently unavailable due to a technical issue with option serialization.*"
              ++ [nl; nl])
      else
        Some (heading ++ L " " ++ cmd_name ++ [nl; nl]
              ++ L "*This command help is currently unavailable due to a technical issue.*"
              ++ [nl; nl])
    else
      let header := heading ++ L " " ++ cmd_name ++ [nl] in
      if format_is "commander" cmd_data then
        let body := render_commander_command cmd_data depth in
        if dict_has (L "subcommands") cmd_data then
          match fuel with
          | O => None
          | S fuel' =>
              match docs_subcommands (generate_command_docs_rec fuel') cmd_name depth
                                     (get_dict (L "subcommands") cmd_data) with
              | Some subs =>
                  Some (Py.join [nl]
                          ([header; body;
                            [nl] ++ heading ++ L "# Subcommands" ++ [nl]] ++ subs))
              | None => None
              end
          end
        else Some (Py.join [nl] [header; body])
      else if format_is "custom" cmd_data then
        Some (Py.join [nl] [header; render_custom_command cmd_data depth])
      else if format_is "raw" cmd_data then
        Some (Py.join [nl] [header; L "```"; get_str (L "raw_help") cmd_data;
                            L "```" ++ [nl]])
      else Some (Py.join [nl] [header]).

Definition generate_command_docs (cmd_name : str) (cmd_data : dict) (depth : Z)
  : option str :=
  generate_command_docs_rec (render_fuel depth) cmd_name cmd_data depth.

(** [generate] on the scanner's output [data]. *)
Definition generate (data : dict) : option str :=
  let command := get_str (L "command") data in
  let root := get_dict (L "data") data in
  let head :=
    (if Py.truthy (title cfg) then [L "# " ++ title cfg ++ [nl]] else [])
    ++ (if (include_metadata cfg && dict_has (L "scanned_at") data)%bool
        then [ L "*Generated: " ++ get_str (L "scanned_at") data ++ L "*" ++ [nl];
               L "*Command: `" ++ command ++ L "`*" ++ [nl] ]
        else []) in
  match (if include_toc cfg then generate_toc root command 0 else Some []) with
  | Some toc =>
      let toc_part :=
        if (include_toc cfg && Py.truthy toc)%bool
        then [L "## Table of Contents" ++ [nl]; toc] else [] in
      match generate_command_docs command root 1 with
      | Some body => Some (Py.join [nl] (head ++ toc_part ++ [body]))
      | None => None
      end
  | None => None
  end.
End Render.

End MarkdownGenerator.

(** ** aztecjs_reference_generation/transform_to_markdown.py: slugify *)

Module AztecjsMarkdownGenerator.

(** The loop [while '--' in slug: slug = slug.replace('--', '-')],
    with the number of rounds still allowed; every round shortens a
    slug that still has two hyphens in a row, so [length slug] rounds
    are enough. *)
Fixpoint collapse_hyphens (rounds : nat) (slug : str) : str :=
  match rounds with
  | O => slug
  | S rounds' =>
      if Py.contains (L "--") slug
      then collapse_hyphens rounds' (Py.replace (L "--") (L "-") slug)
      else slug
  end.

Definition is_hyphen (c : ascii) : bool := Py.ascii_eqb c "-".

Definition slugify (text : str) : str :=
  let slug := Py.lower text in
  let slug := Py.replace (L " ") (L "-") slug in
  let slug := Py.replace (L "/") (L "-") slug in
  let slug := Py.replace (L ".") (L "-") slug in
  let slug := Py.replace (L "_") (L "-") slug in
  let slug := List.filter (fun c => (Py.isalnum c || is_hyphen c)%bool) slug in
  let slug := collapse_hyphens (length slug) slug in
  Py.strip_with is_hyphen slug.

End AztecjsMarkdownGenerator.

(** * Vocabulary of the statements *)

Import Re CLIScanner.

(** ** The prober *)

(** The key under which a command path is recorded as visited, and the
    argument vector of its probe. *)
Definition key_of (cmd_path : list str) : str := Py.join (L " ") cmd_path.
Definition help_argv (cmd_path : list str) : list str := cmd_path ++ [L "--help"].

(** The scanner once a path is marked, and once it is also probed. *)
Definition mark_visited (cmd_path : list str) (sc : scanner) : scanner :=
  Scanner ({[ key_of cmd_path ]} ∪ visited sc) (invoked sc).
Definition mark_probed (cmd_path : list str) (sc : scanner) : scanner :=
  Scanner ({[ key_of cmd_path ]} ∪ visited sc) (invoked sc ++ [help_argv cmd_path]).

(** Later states of one scanner: reached by further calls of
    [scan_command] on it. *)
Inductive later (run : process) : scanner -> scanner -> Prop :=
| later_now sc : later run sc sc
| later_call sc sc1 sc2 cmd_path depth parent_help r :
    later run sc sc1 ->
    scan_command run cmd_path depth parent_help sc1 = Some (r, sc2) ->
    later run sc sc2.

(** The nodes of a command tree: the root, and the nodes of the trees
    stored under its [subcommands] key. *)
Inductive node_of : dict -> dict -> Prop :=
| node_root d : node_of d d
| node_child d subs name child n :
    dict_get (L "subcommands") d = Some (VDict subs) ->
    In (name, VDict child) subs ->
    node_of child n ->
    node_of d n.

Definition is_error_node (n : dict) : bool := dict_has (L "error") n.
Definition has_children (n : dict) : bool := dict_has (L "subcommands") n.

(** Error nodes of a tree have no children. *)
Definition errors_childless (tree : dict) : Prop :=
  forall n, node_of tree n -> is_error_node n = true -> has_children n = false.

(** What a probe answers without calling itself again; [None] when the
    captured text is in the structured dialect. *)
Definition leaf_answer (ph : option str) (help : option str) : option dict :=
  match help with
  | None => Some (error_node "no_help_output")
  | Some help_output =>
      if negb (Py.truthy help_output) then Some (error_node "no_help_output")
      else if same_as_parent ph help_output then Some (error_node "invalid_subcommand")
      else if has_error_marker help_output then Some (execution_error help_output)
      else if (Py.contains (L "Usage:") help_output
               && Py.contains (L "Commands:") help_output)%bool then None
      else match search true custom_format_re help_output with
           | Some _ => Some (dict_set (L "format") (VStr (L "custom"))
                                      (parse_custom_help help_output))
           | None => Some [ (L "format", VStr (L "raw"));
                            (L "raw_help", VStr help_output) ]
           end
  end.

(** The node of a structured help text, given the answers for its
    sub-commands. *)
Definition commander_node (help_output : str) (subcommands : dict) : dict :=
  let parsed := dict_set (L "format") (VStr (L "commander"))
                         (parse_commander_help help_output) in
  match subcommands with
  | [] => parsed
  | _ => dict_set (L "subcommands") (VDict subcommands) parsed
  end.

(** What every answer of the prober satisfies. *)
Definition scan_post (cmd_path : list str) (sc : scanner) (r : dict) (sc' : scanner)
  : Prop :=
  visited sc ⊆ visited sc' /\ key_of cmd_path ∈ visited sc' /\ errors_childless r.

Definition children_ok (subs : dict) : Prop :=
  forall k v, In (k, v) subs -> exists child, v = VDict child /\ errors_childless child.

Definition serialization_marker : str := L "TypeError: Do not know how to serialize".

(** ** Example programs *)

(** A program given by the table of what it prints, on [stdout] and on
    [stderr], for each command line; any other command line fails. *)
Fixpoint answers (table : list (str * (str * str))) (argv : list str)
  : option (str * str) :=
  match table with
  | [] => None
  | (command_line, captured) :: table' =>
      if Py.str_eqb command_line (Py.join (L " ") argv) then Some captured
      else answers table' argv
  end.

Definition tool_help : str :=
  L "Usage: tool [opts]" ++ [nl] ++ L "A short tool." ++ [nl; nl]
  ++ L "Commands:" ++ [nl] ++ L "  build [x]  Builds it" ++ [nl; nl]
  ++ L "Options:" ++ [nl] ++ L "  -h, --help  show help" ++ [nl].

(** [tool] lists one sub-command, which prints the help of [tool]
    again. *)
Definition echo_tool : process :=
  answers [ (L "tool --help", (tool_help, []));
            (L "tool build --help", ([], tool_help)) ].

(** [tool] prints one escape sequence and nothing else. *)
Definition silent_tool : process :=
  answers [ (L "tool --help", ([], [esc] ++ L "[0m")) ].

(** [tool] prints one space and nothing else. *)
Definition blank_tool : process :=
  answers [ (L "tool --help", (L " ", [])) ].

Definition broken_tool : process :=
  answers [ (L "tool --help", ([], L "TypeError: Do not know how to serialize a Symbol")) ].

Definition bigint_tool : process :=
  answers [ (L "tool --help", ([], L "TypeError: Do not know how to serialize a BigInt")) ].

(** A scanner that has visited [tool sub] already. *)
Definition seen_tool_sub : scanner := Scanner {[ L "tool sub" ]} [].

(** A tool with sub-commands nested five deep. *)
Definition level_help (path : string) (level : string) : str :=
  L "Usage: " ++ L path ++ [nl; nl] ++ L "Commands:" ++ [nl]
  ++ L "  sub  Level " ++ L level ++ [nl].

Definition deep_tool : process :=
  answers
    [ (L "t --help", (level_help "t" "1", []));
      (L "t sub --help", (level_help "t sub" "2", []));
      (L "t sub sub --help", (level_help "t sub sub" "3", []));
      (L "t sub sub sub --help", (level_help "t sub sub sub" "4", []));
      (L "t sub sub sub sub --help", (level_help "t sub sub sub sub" "5", []));
      (L "t sub sub sub sub sub --help", (L "Nothing below.", [])) ].

Definition deepest : str := L "t sub sub sub sub sub".

(** ** Slugs *)

(** One character replaced by another. *)
Definition subst_char (a b c : ascii) : ascii := if Py.ascii_eqb a c then b else c.

(** What the slug function of the CLI generator does to one character,
    and what the slug function of the API generator does before it
    filters. *)
Definition cli_char (c : ascii) : ascii :=
  subst_char "/" "-" (subst_char " " "-" (Py.lower_char c)).

Definition api_char (c : ascii) : ascii :=
  subst_char "_" "-" (subst_char "." "-" (cli_char c)).

Definition kept (c : ascii) : bool :=
  (Py.isalnum c || AztecjsMarkdownGenerator.is_hyphen c)%bool.

Definition filtered (x : str) : str := List.filter kept (map api_char x).

Definition slug_char (c : ascii) : Prop := api_char c = c /\ kept c = true.

Definition two_hyphens : str := L "--".
Definition one_hyphen : str := L "-".

(** A string that does not start with a character of the class [p]. *)
Definition clean_start (p : ascii -> bool) (s : str) : Prop :=
  match s with c :: _ => p c = false | [] => True end.

(** Case analysis on the 256 characters. *)
Ltac each_char c := destruct c as [[] [] [] [] [] [] [] []]; vm_compute; try reflexivity.

(** ** Lines of the sectioned dialect *)

(** A line indented by [n] spaces.  *)
Definition indented (n : nat) (text : str) : str := repeat " "%char n ++ text.

(** The text of a continuation line: it starts with a character that is
    neither white space nor a dash, and holds no line break. *)
Definition continuation_text (text : str) : Prop :=
  match text with
  | c :: _ => Py.isspace c = false /\ c <> "-"%char
  | [] => False
  end /\ Forall (fun c => any c = true) text.



(** The option dictionary that [current_option] refers to. *)
Definition option_at (ptr : nat * nat) (secs : list custom_section)
  : option custom_option :=
  match secs !! ptr.1 with
  | Some sec => s_options sec !! ptr.2
  | None => None
  end.


Definition port_line : str := L "    --port <n>  (default: 8080) ($PORT)".


(** ** Vocabulary of the further properties *)

(** [spans ml r m w m']: from position [m], the pattern [r] can match
    the text [w] and reach position [m']. *)
Inductive spans (ml : bool) : re -> mstate -> str -> mstate -> Prop :=
| spans_eps m : spans ml Eps m [] m
| spans_chr p c s m :
    rest m = c :: s -> p c = true ->
    spans ml (Chr p) m [c] (MState (c :: consumed m) s (groups m))
| spans_rep p lo hi m w s :
    rest m = w ++ s -> Forall (fun c => p c = true) w -> (lo <= length w)%nat ->
    (forall h, hi = Some h -> (length w <= h)%nat) ->
    spans ml (Rep p lo hi) m w (MState (rev w ++ consumed m) s (groups m))
| spans_rep_lazy p lo m w s :
    rest m = w ++ s -> Forall (fun c => p c = true) w -> (lo <= length w)%nat ->
    spans ml (RepLazy p lo) m w (MState (rev w ++ consumed m) s (groups m))
| spans_opt_taken r m w m' : spans ml r m w m' -> spans ml (Opt r) m w m'
| spans_opt_skipped r m : spans ml (Opt r) m [] m
| spans_seq r1 r2 m w1 m1 w2 m2 :
    spans ml r1 m w1 m1 -> spans ml r2 m1 w2 m2 ->
    spans ml (Seq r1 r2) m (w1 ++ w2) m2
| spans_grp n r m w m1 :
    spans ml r m w m1 ->
    spans ml (Grp n r) m w (MState (consumed m1) (rest m1) ((n, w) :: groups m1))
| spans_bol m : at_bol ml m = true -> spans ml Bol m [] m
| spans_eol m : at_eol ml m = true -> spans ml Eol m [] m.

(** Patterns without capture groups. *)
Fixpoint group_free (r : re) : bool :=
  match r with
  | Grp _ _ => false
  | Opt r1 => group_free r1
  | Seq r1 r2 => (group_free r1 && group_free r2)%bool
  | _ => true
  end.

(** An option entry of the structured dialect as the parser leaves it. *)
Definition option_entry_ok (o : value) : Prop :=
  exists short long description,
    o = VDict [ (L "short", VStr short); (L "long", VStr long);
                (L "description", VStr description) ] /\
    Py.startswith (L "--") long = true /\
    (short = [] \/ Py.startswith (L "-") short = true) /\
    Py.strip description = description.

(** A command entry of the structured dialect as the parser leaves it. *)
Definition command_entry_ok (c : value) : Prop :=
  exists name signature description,
    c = VDict [ (L "name", VStr name); (L "signature", VStr signature);
                (L "description", VStr description) ] /\
    name <> [] /\
    Forall (fun x => Py.isspace x = false) name /\
    Py.startswith name signature = true /\
    Py.startswith (L "-") name = false.

(** A section of the sectioned dialect as the parser keeps it. *)
Definition section_ok (sec : custom_section) : Prop :=
  (exists c name, s_name sec = c :: name /\ Py.is_AZ c = true) /\
  Forall (fun o => Py.startswith (L "--") (o_flag o) = true) (s_options sec).

(** The same, on the dictionary that the parser returns. *)
Definition section_entry_ok (v : value) : Prop :=
  (exists c name, get_str (L "name") (as_dict v) = c :: name /\ Py.is_AZ c = true) /\
  Forall (fun o => Py.startswith (L "--") (get_str (L "flag") (as_dict o)) = true)
         (get_list (L "options") (as_dict v)).

(** The parser's state after a section with one option. *)
Definition port_state : custom_state :=
  custom_loop custom_init [ L "  NETWORK"; port_line ].

(** The names under which a structured node has sub-commands: the
    names of its commands, [help] apart. *)
Definition scanned_names (cmds : list value) (name : str) : Prop :=
  In name (map command_name cmds) /\ name <> L "help".

(** The keys of [subs] are the scanned names of [cmds]. *)
Definition keys_are (subs : dict) (cmds : list value) : Prop :=
  forall name, dict_has name subs = true <-> scanned_names cmds name.

(** Every node of a tree has the property [P]. *)
Definition all_nodes (P : dict -> Prop) (tree : dict) : Prop :=
  forall n, node_of tree n -> P n.

(** The [format] of a node. *)
Definition has_format (f : string) (n : dict) : Prop :=
  dict_get (L "format") n = Some (VStr (L f)).

(** A node is an error node, without [format] and without
    [subcommands], or it has no [error] key and one of the three
    formats, of which only [commander] has [subcommands]. *)
Definition well_tagged (n : dict) : Prop :=
  (is_error_node n = true /\ dict_get (L "format") n = None /\ has_children n = false)
  \/ (is_error_node n = false /\
      (has_format "commander" n
       \/ (has_format "custom" n /\ has_children n = false)
       \/ (has_format "raw" n /\ has_children n = false))).

(** The nodes of a tree with their distance from the root. *)
Inductive node_at : nat -> dict -> dict -> Prop :=
| at_root d : node_at 0 d d
| at_child d subs name child k n :
    dict_get (L "subcommands") d = Some (VDict subs) ->
    In (name, VDict child) subs ->
    node_at k child n ->
    node_at (S k) d n.

(** The command lines run so far are all different, and each is the
    probe of a path that is marked as visited. *)
Definition probes_ok (sc : scanner) : Prop :=
  List.NoDup (invoked sc) /\
  forall argv, In argv (invoked sc) ->
               exists p, argv = help_argv p /\ key_of p ∈ visited sc.

(** A structured node has an entry for each scanned name. *)
Definition sub_keys_complete (n : dict) : Prop :=
  has_format "commander" n ->
  keys_are (get_dict (L "subcommands") n) (get_list (L "commands") n).

(** The nodes of a tree answered at [depth] stay within six levels of
    depth 0, and those at level six are error nodes. *)
Definition within_levels (depth : Z) (tree : dict) : Prop :=
  forall k n, node_at k tree n ->
              depth + Z.of_nat k <= 6 /\
              (depth + Z.of_nat k = 6 -> is_error_node n = true).

(** What a call on [cmd_path] adds to the command lines run: probes of
    [cmd_path] followed by sub-command names, none of which is [help]. *)
Definition probes_below (cmd_path : list str) (sc sc' : scanner) : Prop :=
  forall argv, In argv (invoked sc') ->
               In argv (invoked sc) \/
               exists names, argv = cmd_path ++ names ++ [L "--help"] /\
                             ~ In (L "help") names.

(** A call keeps the command lines in order. *)
Definition probes_post (cmd_path : list str) (sc sc' : scanner) : Prop :=
  probes_ok sc -> probes_ok sc' /\ probes_below cmd_path sc sc'.

(** A program whose help text mentions a failure. *)
Definition failing_tool : process :=
  answers [ (L "tool --help", (L "Usage: tool" ++ [nl] ++ L "Commands:" ++ [nl]
                                 ++ L "  run  Exit with Error: on failure", [])) ].

(** The characters of a slug of the CLI reference generator, and of
    the API reference generator. *)
Definition cli_slug_char (c : ascii) : Prop :=
  c <> " "%char /\ c <> "/"%char /\ Py.is_AZ c = false.

Definition api_slug_char (c : ascii) : Prop :=
  (Py.isalnum c = true \/ c = "-"%char) /\ Py.lower_char c = c.

(** A character other than an angle bracket. *)
Definition no_angle (c : ascii) : Prop := c <> "<"%char /\ c <> ">"%char.

(** The characters between the bracket and the final letter of an
    escape sequence, and the final letter. *)
Definition ansi_param (c : ascii) : bool := either Py.is_09 (ch ";") c.

Definition ansi_final (c : ascii) : bool := either Py.is_az Py.is_AZ c.

(** Two results of the matcher that took the same number of
    characters, counted from positions [a] and [a']. *)
Definition same_span (a a' : nat) (x y : option mstate) : Prop :=
  match x, y with
  | Some m, Some m' =>
      exists n, length (consumed m) = (a + n)%nat /\ length (consumed m') = (a' + n)%nat
  | None, None => True
  | _, _ => False
  end.

(** * Properties *)

(** ** Strings *)

Lemma ascii_eqb_eq (a b : ascii) : Py.ascii_eqb a b = true <-> a = b.
Proof. unfold Py.ascii_eqb. apply Ascii.eqb_eq. Qed.

Lemma str_eqb_eq (a b : str) : Py.str_eqb a b = true <-> a = b.
Proof.
  revert b. induction a as [|x a IH]; intros [|y b]; simpl; split; intros H;
    try congruence; try discriminate.
  - apply andb_true_iff in H as [Hx Hab].
    apply ascii_eqb_eq in Hx. apply IH in Hab. congruence.
  - injection H as -> ->. apply andb_true_iff. split.
    + now apply ascii_eqb_eq.
    + now apply IH.
Qed.

Lemma str_eqb_refl (a : str) : Py.str_eqb a a = true.
Proof. now apply str_eqb_eq. Qed.

Lemma str_eqb_neq (a b : str) : Py.str_eqb a b = false <-> a <> b.
Proof.
  destruct (Py.str_eqb a b) eqn:E; split; intros H; try congruence.
  - apply str_eqb_eq in E. contradiction.
  - intros ->. rewrite str_eqb_refl in E. discriminate.
Qed.

Lemma startswith_spec (p s : str) :
  Py.startswith p s = true <-> exists v, s = p ++ v.
Proof.
  revert s. induction p as [|x p IH]; intros s; simpl.
  - split; eauto.
  - destruct s as [|y s].
    + split; [discriminate | intros [v Hv]; discriminate].
    + rewrite andb_true_iff, ascii_eqb_eq, IH. split.
      * intros [-> [v ->]]. now exists v.
      * intros [v Hv]. injection Hv as -> ->. eauto.
Qed.

Lemma contains_spec (sub s : str) :
  Py.contains sub s = true <-> exists u v, s = u ++ sub ++ v.
Proof.
  induction s as [|c s IH].
  - simpl. rewrite orb_false_r, startswith_spec. split.
    + intros [v Hv]. exists [], v. exact Hv.
    + intros [u [v Huv]]. destruct u; simpl in Huv.
      * now exists v.
      * discriminate.
  - simpl. rewrite orb_true_iff, startswith_spec, IH. split.
    + intros [[v Hv] | [u [v Huv]]].
      * exists [], v. exact Hv.
      * exists (c :: u), v. simpl. now rewrite Huv.
    + intros [u [v Huv]]. destruct u as [|c' u]; simpl in Huv.
      * left. now exists v.
      * right. injection Huv as -> ->. now exists u, v.
Qed.

Lemma contains_nil_false (c : ascii) (sub : str) : Py.contains (c :: sub) [] = false.
Proof. reflexivity. Qed.

(** Trimming. *)

Lemma lstrip_clean p s : clean_start p (Py.lstrip_with p s).
Proof.
  induction s as [|c s IH]; simpl; [exact I|].
  destruct (p c) eqn:E; [exact IH | exact E].
Qed.

Lemma lstrip_fixed p s : clean_start p s -> Py.lstrip_with p s = s.
Proof. destruct s as [|c s]; simpl; [reflexivity | now intros ->]. Qed.

Lemma lstrip_suffix p s : exists u, s = u ++ Py.lstrip_with p s.
Proof.
  induction s as [|c s [u IH]]; simpl; [now exists []|].
  destruct (p c); [| now exists []].
  exists (c :: u). simpl. now rewrite <- IH.
Qed.

Lemma rstrip_prefix p s : exists u, s = Py.rstrip_with p s ++ u.
Proof.
  unfold Py.rstrip_with. destruct (lstrip_suffix p (rev s)) as [u Hu].
  exists (rev u). rewrite <- rev_app_distr, <- Hu. now rewrite rev_involutive.
Qed.

Lemma rstrip_rev_clean p s : clean_start p (rev (Py.rstrip_with p s)).
Proof. unfold Py.rstrip_with. rewrite rev_involutive. apply lstrip_clean. Qed.

Lemma rstrip_fixed p s : clean_start p (rev s) -> Py.rstrip_with p s = s.
Proof.
  intros H. unfold Py.rstrip_with. rewrite lstrip_fixed by exact H.
  apply rev_involutive.
Qed.

Lemma rstrip_keeps_clean_start p s :
  clean_start p s -> clean_start p (Py.rstrip_with p s).
Proof.
  intros H. destruct s as [|c s]; [exact I|]. simpl in H.
  destruct (Py.rstrip_with p (c :: s)) as [|c' t] eqn:E; [exact I|].
  destruct (rstrip_prefix p (c :: s)) as [u Hu]. rewrite E in Hu.
  simpl in Hu. injection Hu as -> _. exact H.
Qed.

Lemma strip_with_clean p s :
  clean_start p (Py.strip_with p s) /\ clean_start p (rev (Py.strip_with p s)).
Proof.
  unfold Py.strip_with. split.
  - apply rstrip_keeps_clean_start, lstrip_clean.
  - apply rstrip_rev_clean.
Qed.

Lemma strip_with_fixed p s :
  clean_start p s -> clean_start p (rev s) -> Py.strip_with p s = s.
Proof.
  intros H1 H2. unfold Py.strip_with. rewrite lstrip_fixed by exact H1.
  now apply rstrip_fixed.
Qed.

(** Trimming is idempotent. *)
Lemma strip_with_idem p s :
  Py.strip_with p (Py.strip_with p s) = Py.strip_with p s.
Proof. apply strip_with_fixed; apply strip_with_clean. Qed.

Lemma strip_with_inside p s : exists u v, s = u ++ Py.strip_with p s ++ v.
Proof.
  unfold Py.strip_with. destruct (lstrip_suffix p s) as [u Hu].
  destruct (rstrip_prefix p (Py.lstrip_with p s)) as [v Hv].
  exists u, v. now rewrite <- Hv.
Qed.

Lemma contains_inside sub u s v :
  Py.contains sub (u ++ s ++ v) = false -> Py.contains sub s = false.
Proof.
  intros H. destruct (Py.contains sub s) eqn:E; [|reflexivity].
  apply contains_spec in E as (a & b & ->).
  assert (Hc : Py.contains sub (u ++ (a ++ sub ++ b) ++ v) = true).
  { apply contains_spec. exists (u ++ a), (b ++ v). now rewrite <- !app_assoc. }
  congruence.
Qed.

Lemma strip_with_Forall (Q : ascii -> Prop) p s :
  Forall Q s -> Forall Q (Py.strip_with p s).
Proof.
  intros HQ. destruct (strip_with_inside p s) as (u & v & Hs).
  rewrite Hs in HQ. apply Forall_app in HQ as [_ HQ].
  now apply Forall_app in HQ as [HQ _].
Qed.

(** ** Slugs *)

Section Slugs.
Import AztecjsMarkdownGenerator.

Lemma replace_char (a b : ascii) (s : str) :
  Py.replace [a] [b] s = map (subst_char a b) s.
Proof.
  unfold Py.replace. induction s as [|c s IH]; [reflexivity|].
  cbn [Py.replace_go Py.startswith map length Nat.pred]. unfold subst_char.
  rewrite andb_true_r. destruct (Py.ascii_eqb a c); simpl; now rewrite IH.
Qed.

Lemma cli_slugify_map (x : str) : MarkdownGenerator.slugify x = map cli_char x.
Proof.
  unfold MarkdownGenerator.slugify, Py.lower.
  change (L "/") with ["/"%char]. change (L " ") with [" "%char].
  change (L "-") with ["-"%char].
  rewrite !replace_char, !map_map. reflexivity.
Qed.

Lemma cli_char_idem (c : ascii) : cli_char (cli_char c) = cli_char c.
Proof. each_char c. Qed.

Lemma api_char_kept_fixed (c : ascii) :
  kept (api_char c) = true -> api_char (api_char c) = api_char c.
Proof. each_char c. Qed.

Lemma api_char_hyphen : api_char "-" = "-"%char /\ kept "-" = true.
Proof. split; reflexivity. Qed.

Lemma replace_dd_nil : Py.replace two_hyphens one_hyphen [] = [].
Proof. reflexivity. Qed.

Lemma replace_dd_one (a : ascii) : Py.replace two_hyphens one_hyphen [a] = [a].
Proof.
  unfold Py.replace, two_hyphens. change (L "--") with ["-"%char; "-"%char].
  cbn [Py.replace_go Py.startswith]. now rewrite andb_false_r.
Qed.

Lemma replace_dd_pair (s : str) :
  Py.replace two_hyphens one_hyphen ("-"%char :: "-"%char :: s)
  = "-"%char :: Py.replace two_hyphens one_hyphen s.
Proof. reflexivity. Qed.

Lemma replace_dd_other (a b : ascii) (s : str) :
  (Py.ascii_eqb "-" a && Py.ascii_eqb "-" b)%bool = false ->
  Py.replace two_hyphens one_hyphen (a :: b :: s) = a :: Py.replace two_hyphens one_hyphen (b :: s).
Proof.
  intros H. unfold Py.replace, two_hyphens, one_hyphen.
  change (L "--") with ["-"%char; "-"%char].
  cbn [Py.replace_go Py.startswith]. rewrite andb_true_r, H. reflexivity.
Qed.

Lemma hyphen_pair_cases (a b : ascii) :
  (a = "-"%char /\ b = "-"%char) \/
  (Py.ascii_eqb "-" a && Py.ascii_eqb "-" b)%bool = false.
Proof.
  destruct (Py.ascii_eqb "-" a) eqn:Ea; [|now right].
  destruct (Py.ascii_eqb "-" b) eqn:Eb; [|now right].
  left. apply ascii_eqb_eq in Ea, Eb. now subst.
Qed.

(** Induction two characters at a time. *)
Lemma str_pair_ind (P : str -> Prop) :
  P [] -> (forall a, P [a]) ->
  (forall s, P s -> P ("-"%char :: "-"%char :: s)) ->
  (forall a b s, (Py.ascii_eqb "-" a && Py.ascii_eqb "-" b)%bool = false ->
                 P (b :: s) -> P (a :: b :: s)) ->
  forall s, P s.
Proof.
  intros Hnil Hone Hpair Hother s.
  enough (H : P s /\ forall a, P (a :: s)) by apply H.
  induction s as [|b s [IH1 IH2]]; [split; auto|].
  split; [apply IH2|]. intros a.
  destruct (hyphen_pair_cases a b) as [[-> ->]|H]; auto.
Qed.

Lemma contains_dd_pair (s : str) : Py.contains two_hyphens ("-"%char :: "-"%char :: s) = true.
Proof. reflexivity. Qed.

Lemma contains_dd_other (a b : ascii) (s : str) :
  (Py.ascii_eqb "-" a && Py.ascii_eqb "-" b)%bool = false ->
  Py.contains two_hyphens (a :: b :: s) = Py.contains two_hyphens (b :: s).
Proof.
  intros H. unfold two_hyphens. change (L "--") with ["-"%char; "-"%char].
  cbn [Py.contains Py.startswith]. rewrite andb_true_r.
  rewrite H. reflexivity.
Qed.

Lemma replace_dd_length (s : str) :
  (length (Py.replace two_hyphens one_hyphen s) <= length s)%nat.
Proof.
  induction s as [| a | s IH | a b s H IH] using str_pair_ind.
  - simpl. lia.
  - rewrite replace_dd_one. lia.
  - rewrite replace_dd_pair. simpl. lia.
  - rewrite replace_dd_other by exact H. simpl in *. lia.
Qed.

(** A round of the loop shortens a slug that has two hyphens in a row. *)
Lemma replace_dd_shorter (s : str) :
  Py.contains two_hyphens s = true -> (length (Py.replace two_hyphens one_hyphen s) < length s)%nat.
Proof.
  induction s as [| a | s IH | a b s H IH] using str_pair_ind; intros Hc.
  - discriminate.
  - unfold two_hyphens in Hc. change (L "--") with ["-"%char; "-"%char] in Hc.
    cbn [Py.contains Py.startswith] in Hc. rewrite andb_false_r in Hc. discriminate.
  - rewrite replace_dd_pair. pose proof (replace_dd_length s). simpl. lia.
  - rewrite replace_dd_other by exact H. rewrite contains_dd_other in Hc by exact H.
    apply IH in Hc. simpl in *. lia.
Qed.

Lemma replace_dd_Forall (Q : ascii -> Prop) (s : str) :
  Forall Q s -> Forall Q (Py.replace two_hyphens one_hyphen s).
Proof.
  induction s as [| a | s IH | a b s H IH] using str_pair_ind; intros HQ.
  - constructor.
  - now rewrite replace_dd_one.
  - rewrite replace_dd_pair. inversion HQ as [|? ? Ha HQ']; subst.
    inversion HQ' as [|? ? Hb HQ'']; subst. constructor; auto.
  - rewrite replace_dd_other by exact H.
    inversion HQ as [|? ? Ha HQ']; subst. constructor; auto.
Qed.

(** The loop ends by its own test: [length slug] rounds are enough. *)
Lemma collapse_hyphens_done (rounds : nat) (s : str) :
  (length s <= rounds)%nat -> Py.contains two_hyphens (collapse_hyphens rounds s) = false.
Proof.
  revert s. induction rounds as [|n IH]; intros s Hlen.
  - destruct s; [reflexivity | simpl in Hlen; lia].
  - cbn [collapse_hyphens]. fold two_hyphens one_hyphen.
    destruct (Py.contains two_hyphens s) eqn:Hc; [|exact Hc].
    apply IH. apply replace_dd_shorter in Hc. lia.
Qed.

Lemma collapse_hyphens_fixed (rounds : nat) (s : str) :
  Py.contains two_hyphens s = false -> collapse_hyphens rounds s = s.
Proof.
  intros Hc. destruct rounds; [reflexivity|].
  cbn [collapse_hyphens]. fold two_hyphens. now rewrite Hc.
Qed.

Lemma collapse_hyphens_Forall (Q : ascii -> Prop) (rounds : nat) (s : str) :
  Forall Q s -> Forall Q (collapse_hyphens rounds s).
Proof.
  revert s. induction rounds as [|n IH]; intros s HQ; [exact HQ|].
  cbn [collapse_hyphens]. fold two_hyphens one_hyphen.
  destruct (Py.contains two_hyphens s); [|exact HQ].
  apply IH. now apply replace_dd_Forall.
Qed.

Lemma clean_start_hyphen (s : str) :
  clean_start is_hyphen s -> Py.startswith one_hyphen s = false.
Proof.
  destruct s as [|c s]; [reflexivity|]. unfold clean_start, is_hyphen, one_hyphen.
  intros H. change (L "-") with ["-"%char]. cbn [Py.startswith].
  unfold Py.ascii_eqb in *. now rewrite Ascii.eqb_sym, H.
Qed.

Lemma api_slugify_unfold (x : str) :
  slugify x
  = Py.strip_with is_hyphen (collapse_hyphens (length (filtered x)) (filtered x)).
Proof.
  unfold slugify, filtered, Py.lower.
  change (L "/") with ["/"%char]. change (L " ") with [" "%char].
  change (L ".") with ["."%char]. change (L "_") with ["_"%char].
  change (L "-") with ["-"%char].
  rewrite !replace_char, !map_map. reflexivity.
Qed.

Lemma filtered_slug_chars (x : str) : Forall slug_char (filtered x).
Proof.
  unfold filtered. apply List.Forall_forall. intros c Hc.
  apply filter_In in Hc as [Hc Hk]. apply in_map_iff in Hc as (c0 & <- & _).
  split; [now apply api_char_kept_fixed | exact Hk].
Qed.

Lemma slug_chars_fixed (s : str) :
  Forall slug_char s -> List.filter kept (map api_char s) = s.
Proof.
  induction 1 as [|c s [Hc Hk] _ IH]; [reflexivity|].
  cbn [map List.filter]. rewrite Hc, Hk. now f_equal.
Qed.

Lemma api_slugify_shape (x : str) :
  Forall slug_char (slugify x) /\
  Py.contains two_hyphens (slugify x) = false /\
  clean_start is_hyphen (slugify x) /\
  clean_start is_hyphen (rev (slugify x)).
Proof.
  rewrite api_slugify_unfold. split; [|split].
  - apply strip_with_Forall, collapse_hyphens_Forall, filtered_slug_chars.
  - destruct (strip_with_inside is_hyphen
                (collapse_hyphens (length (filtered x)) (filtered x))) as (u & v & Huv).
    eapply contains_inside. rewrite <- Huv. now apply collapse_hyphens_done.
  - apply strip_with_clean.
Qed.

Lemma api_slugify_idem (x : str) : slugify (slugify x) = slugify x.
Proof.
  destruct (api_slugify_shape x) as (Hchars & Hdd & Hstart & Hend).
  rewrite (api_slugify_unfold (slugify x)). unfold filtered.
  rewrite slug_chars_fixed by exact Hchars.
  rewrite collapse_hyphens_fixed by exact Hdd.
  now apply strip_with_fixed.
Qed.

Lemma cli_slugify_idem (x : str) :
  MarkdownGenerator.slugify (MarkdownGenerator.slugify x) = MarkdownGenerator.slugify x.
Proof.
  rewrite !cli_slugify_map, map_map. apply map_ext. apply cli_char_idem.
Qed.

(** C7 (as amended).  Both slug functions are idempotent.  The slug of
    the API reference generator has no two hyphens in a row and no
    hyphen at either end. *)
Theorem slugify_idempotent_and_trimmed (x : str) :
  MarkdownGenerator.slugify (MarkdownGenerator.slugify x) = MarkdownGenerator.slugify x /\
  slugify (slugify x) = slugify x /\
  Py.contains (L "--") (slugify x) = false /\
  Py.startswith (L "-") (slugify x) = false /\
  Py.endswith (L "-") (slugify x) = false.
Proof.
  destruct (api_slugify_shape x) as (_ & Hdd & Hstart & Hend).
  split; [apply cli_slugify_idem|]. split; [apply api_slugify_idem|].
  split; [exact Hdd|]. split.
  - now apply clean_start_hyphen.
  - unfold Py.endswith. change (rev (L "-")) with one_hyphen. now apply clean_start_hyphen.
Qed.

(** C7 as stated fails for the slug function of the CLI reference
    generator, which neither squeezes nor trims hyphens. *)
Lemma cli_slugify_keeps_hyphens :
  MarkdownGenerator.slugify (L " a  b ") = L "-a--b-" /\
  Py.startswith (L "-") (MarkdownGenerator.slugify (L " a  b ")) = true /\
  Py.contains (L "--") (MarkdownGenerator.slugify (L " a  b ")) = true /\
  Py.endswith (L "-") (MarkdownGenerator.slugify (L " a  b ")) = true.
Proof. repeat split; vm_compute; reflexivity. Qed.

End Slugs.

(** ** The prober: one call *)

Section ScanFacts.
Variable run : process.

Lemma scan_rec_visited fuel cmd_path depth ph sc :
  key_of cmd_path ∈ visited sc ->
  scan_command_rec run fuel cmd_path depth ph sc
  = Some (error_node "already_visited", sc).
Proof.
  intros Hin. destruct fuel; cbn [scan_command_rec];
    fold (key_of cmd_path); rewrite bool_decide_eq_true_2; auto.
Qed.

Lemma scan_rec_too_deep fuel cmd_path depth ph sc :
  key_of cmd_path ∉ visited sc -> depth > 5 ->
  scan_command_rec run fuel cmd_path depth ph sc
  = Some (error_node "max_depth_exceeded", mark_visited cmd_path sc).
Proof.
  intros Hin Hd. apply Z.gt_lt, Z.gtb_lt in Hd.
  destruct fuel; cbn [scan_command_rec];
    fold (key_of cmd_path); rewrite bool_decide_eq_false_2; auto;
    rewrite Hd; reflexivity.
Qed.

Lemma scan_rec_leaf fuel cmd_path depth ph sc r :
  key_of cmd_path ∉ visited sc -> depth <= 5 ->
  leaf_answer ph (run_command run (help_argv cmd_path)) = Some r ->
  scan_command_rec run fuel cmd_path depth ph sc
  = Some (r, mark_probed cmd_path sc).
Proof.
  intros Hin Hd Hleaf.
  assert (Hd' : (depth >? 5) = false) by (rewrite Z.gtb_ltb; apply Z.ltb_ge; lia).
  unfold leaf_answer in Hleaf.
  destruct fuel; cbn [scan_command_rec];
    fold (key_of cmd_path); fold (help_argv cmd_path);
    rewrite bool_decide_eq_false_2 by auto; rewrite Hd';
    (destruct (run_command run (help_argv cmd_path)) as [h|];
     [| injection Hleaf as <-; reflexivity]);
    (destruct (negb (Py.truthy h)); [injection Hleaf as <-; reflexivity|]);
    (destruct (same_as_parent ph h); [injection Hleaf as <-; reflexivity|]);
    (destruct (has_error_marker h); [injection Hleaf as <-; reflexivity|]);
    (destruct (Py.contains (L "Usage:") h && Py.contains (L "Commands:") h)%bool;
     [discriminate|]);
    (destruct (search true custom_format_re h);
     injection Hleaf as <-; reflexivity).
Qed.

Lemma scan_rec_commander fuel cmd_path depth ph sc h :
  key_of cmd_path ∉ visited sc -> depth <= 5 ->
  run_command run (help_argv cmd_path) = Some h ->
  leaf_answer ph (Some h) = None ->
  scan_command_rec run (S fuel) cmd_path depth ph sc
  = match scan_subcommands (scan_command_rec run fuel) cmd_path depth h
            (get_list (L "commands")
               (dict_set (L "format") (VStr (L "commander")) (parse_commander_help h)))
            [] (mark_probed cmd_path sc) with
    | Some (subcommands, sc3) => Some (commander_node h subcommands, sc3)
    | None => None
    end.
Proof.
  intros Hin Hd Hrun Hleaf.
  assert (Hd' : (depth >? 5) = false) by (rewrite Z.gtb_ltb; apply Z.ltb_ge; lia).
  unfold leaf_answer in Hleaf.
  cbn [scan_command_rec]; fold (key_of cmd_path); fold (help_argv cmd_path).
  rewrite bool_decide_eq_false_2 by auto. rewrite Hd', Hrun.
  destruct (negb (Py.truthy h)); [discriminate|].
  destruct (same_as_parent ph h); [discriminate|].
  destruct (has_error_marker h); [discriminate|].
  destruct (Py.contains (L "Usage:") h && Py.contains (L "Commands:") h)%bool.
  - reflexivity.
  - destruct (search true custom_format_re h); discriminate.
Qed.
End ScanFacts.

(** ** The prober: shape of the answers *)

Lemma In_dict_set k v k' v' (d : dict) :
  In (k, v) (dict_set k' v' d) -> In (k, v) d \/ v = v'.
Proof.
  induction d as [|[k0 v0] d IH]; simpl.
  - intros [H|[]]. injection H as _ <-. now right.
  - destruct (Py.str_eqb k0 k'); simpl.
    + intros [H|H]; [injection H as _ <-; now right | left; now right].
    + intros [H|H]; [left; now left |].
      destruct (IH H) as [H'|H']; [left; now right | now right].
Qed.

Lemma errors_childless_leaf (r : dict) :
  dict_get (L "subcommands") r = None -> errors_childless r.
Proof.
  intros Hnone n Hn _. inversion Hn; subst.
  - unfold has_children, dict_has. now rewrite Hnone.
  - congruence.
Qed.

Lemma leaf_answer_no_children ph help r :
  leaf_answer ph help = Some r -> dict_get (L "subcommands") r = None.
Proof.
  unfold leaf_answer. destruct help as [h|]; [| intros H; injection H as <-; reflexivity].
  destruct (negb (Py.truthy h)); [intros H; injection H as <-; reflexivity|].
  destruct (same_as_parent ph h); [intros H; injection H as <-; reflexivity|].
  destruct (has_error_marker h); [intros H; injection H as <-; reflexivity|].
  destruct (Py.contains (L "Usage:") h && Py.contains (L "Commands:") h)%bool;
    [discriminate|].
  destruct (search true custom_format_re h); intros H; injection H as <-; reflexivity.
Qed.

Lemma commander_node_not_error h subs : is_error_node (commander_node h subs) = false.
Proof. destruct subs; reflexivity. Qed.

Lemma commander_node_children h subs subs' :
  dict_get (L "subcommands") (commander_node h subs) = Some (VDict subs') ->
  subs' = subs.
Proof.
  destruct subs as [|kv subs]; [discriminate|].
  intros H.
  change (Some (VDict (kv :: subs)) = Some (VDict subs')) in H.
  congruence.
Qed.

(** ** The prober: all calls *)

Section ScanInduction.
Variable run : process.

Lemma scan_subcommands_post scan cmd_path depth h cmds :
  (forall p d ph s r s', scan p d ph s = Some (r, s') -> scan_post p s r s') ->
  forall acc sc subs sc',
    scan_subcommands scan cmd_path depth h cmds acc sc = Some (subs, sc') ->
    children_ok acc ->
    visited sc ⊆ visited sc' /\ children_ok subs.
Proof.
  intros Hscan. induction cmds as [|cmd cmds IH]; intros acc sc subs sc' H Hacc.
  - simpl in H. injection H as <- <-. split; [reflexivity | exact Hacc].
  - cbn [scan_subcommands] in H. revert H.
    destruct (negb (Py.str_eqb (command_name cmd) (L "help"))).
    + destruct (scan (cmd_path ++ [command_name cmd]) (depth + 1) (Some h) sc)
        as [[r s1]|] eqn:E; intros H; cbn beta iota in H; [|discriminate].
      apply Hscan in E as (Hsub & _ & Hr).
      apply IH in H as [Hsub' Hok].
      * split; [etrans; eassumption | exact Hok].
      * intros k v Hin. apply In_dict_set in Hin as [Hin| ->]; eauto.
    + intros H. eapply IH; eauto.
Qed.

Lemma errors_childless_commander h subs :
  children_ok subs -> errors_childless (commander_node h subs).
Proof.
  intros Hsubs n Hn Herr. inversion Hn; subst.
  - now rewrite commander_node_not_error in Herr.
  - apply commander_node_children in H as ->.
    destruct (Hsubs _ _ H0) as (child' & Heq & Hok). injection Heq as <-.
    now apply Hok.
Qed.

Lemma leaf_answer_none ph help :
  leaf_answer ph help = None -> exists h, help = Some h.
Proof. destruct help as [h|]; [eauto | discriminate]. Qed.

Lemma scan_rec_post fuel :
  forall cmd_path depth ph sc r sc',
    scan_command_rec run fuel cmd_path depth ph sc = Some (r, sc') ->
    scan_post cmd_path sc r sc'.
Proof.
  induction fuel as [|fuel IH]; intros cmd_path depth ph sc r sc' H;
    (destruct (decide (key_of cmd_path ∈ visited sc)) as [Hin|Hin];
     [ rewrite scan_rec_visited in H by exact Hin; injection H as <- <-;
       repeat split; [reflexivity | exact Hin | now apply errors_childless_leaf] |]);
    (destruct (Z_gt_le_dec depth 5) as [Hd|Hd];
     [ rewrite scan_rec_too_deep in H by assumption; injection H as <- <-;
       repeat split; [unfold mark_visited; simpl; clear; set_solver ..
                     | now apply errors_childless_leaf] |]);
    (destruct (leaf_answer ph (run_command run (help_argv cmd_path))) as [r0|] eqn:Hleaf;
     [ rewrite (scan_rec_leaf _ _ _ _ _ _ _ Hin Hd Hleaf) in H; injection H as <- <-;
       repeat split; [unfold mark_probed; simpl; clear; set_solver ..
                     | eapply errors_childless_leaf, leaf_answer_no_children; eauto] |]).
  - (* no nested call is left *)
    apply leaf_answer_none in Hleaf as Hh. destruct Hh as [h Hh].
    cbn [scan_command_rec] in H. fold (key_of cmd_path) in H.
    fold (help_argv cmd_path) in H.
    rewrite bool_decide_eq_false_2 in H by exact Hin.
    replace (depth >? 5) with false in H
      by (symmetry; rewrite Z.gtb_ltb; apply Z.ltb_ge; lia).
    rewrite Hh in H, Hleaf. unfold leaf_answer in Hleaf. revert H Hleaf.
    destruct (negb (Py.truthy h)); [discriminate|].
    destruct (same_as_parent ph h); [discriminate|].
    destruct (has_error_marker h); [discriminate|].
    destruct (Py.contains (L "Usage:") h && Py.contains (L "Commands:") h)%bool;
      [discriminate|].
    destruct (search true custom_format_re h); discriminate.
  - apply leaf_answer_none in Hleaf as Hh. destruct Hh as [h Hh].
    rewrite Hh in Hleaf.
    rewrite (scan_rec_commander _ _ _ _ _ _ _ Hin Hd Hh Hleaf) in H.
    revert H.
    destruct (scan_subcommands _ _ _ _ _ _ _) as [[subs sc3]|] eqn:Hsub; intros H;
      [|discriminate].
    injection H as <- <-.
    eapply scan_subcommands_post in Hsub as [Hvis Hok]; [| exact IH | intros k v []].
    repeat split.
    + unfold mark_probed in Hvis; simpl in Hvis. clear -Hvis. set_solver.
    + unfold mark_probed in Hvis; simpl in Hvis. clear -Hvis. set_solver.
    + now apply errors_childless_commander.
Qed.

Lemma scan_subcommands_total scan cmd_path depth h cmds :
  (forall p ph s, exists r s', scan p (depth + 1) ph s = Some (r, s')) ->
  forall acc sc, exists subs sc',
    scan_subcommands scan cmd_path depth h cmds acc sc = Some (subs, sc').
Proof.
  intros Hscan. induction cmds as [|cmd cmds IH]; intros acc sc;
    cbn [scan_subcommands]; eauto.
  destruct (negb (Py.str_eqb (command_name cmd) (L "help"))); [|apply IH].
  destruct (Hscan (cmd_path ++ [command_name cmd]) (Some h) sc) as (r & s' & ->).
  apply IH.
Qed.

(** Enough nested calls are allowed: the prober always answers. *)
Lemma scan_rec_total fuel :
  forall cmd_path depth ph sc,
    (Z.to_nat (6 - depth) <= fuel)%nat ->
    exists r sc', scan_command_rec run fuel cmd_path depth ph sc = Some (r, sc').
Proof.
  induction fuel as [|fuel IH]; intros cmd_path depth ph sc Hfuel;
    (destruct (decide (key_of cmd_path ∈ visited sc)) as [Hin|Hin];
     [ rewrite scan_rec_visited by exact Hin; eauto |]);
    (destruct (Z_gt_le_dec depth 5) as [Hd|Hd];
     [ rewrite scan_rec_too_deep by assumption; eauto |]);
    try lia.
  destruct (leaf_answer ph (run_command run (help_argv cmd_path))) as [r0|] eqn:Hleaf.
  - rewrite (scan_rec_leaf _ _ _ _ _ _ _ Hin Hd Hleaf). eauto.
  - apply leaf_answer_none in Hleaf as Hh. destruct Hh as [h Hh].
    rewrite Hh in Hleaf.
    rewrite (scan_rec_commander _ _ _ _ _ _ _ Hin Hd Hh Hleaf).
    destruct (scan_subcommands_total (scan_command_rec run fuel) cmd_path depth h
                (get_list (L "commands")
                   (dict_set (L "format") (VStr (L "commander")) (parse_commander_help h)))
                ltac:(intros p ph' s; apply IH; lia) [] (mark_probed cmd_path sc))
      as (subs & sc3 & ->).
    eauto.
Qed.

Lemma scan_command_total cmd_path depth ph sc :
  exists r sc', scan_command run cmd_path depth ph sc = Some (r, sc').
Proof. apply scan_rec_total. unfold scan_fuel. lia. Qed.

Lemma later_visited sc sc' :
  later run sc sc' -> visited sc ⊆ visited sc'.
Proof.
  induction 1 as [|sc sc1 sc2 p d ph r _ IH H]; [reflexivity|].
  apply scan_rec_post in H as (Hsub & _). etrans; eassumption.
Qed.
End ScanInduction.

(** ** The prober: the claims *)

(** C1.  Within one scan, a second call of [scan_command] on a command
    path answers [already_visited] and leaves the scanner as it was: no
    program is run, no path is marked, no nested call is made. *)
Theorem scan_command_second_visit (run : process) cmd_path depth1 ph1 sc r1 sc1 sc2 depth2 ph2 :
  scan_command run cmd_path depth1 ph1 sc = Some (r1, sc1) ->
  later run sc1 sc2 ->
  scan_command run cmd_path depth2 ph2 sc2
  = Some (error_node "already_visited", sc2).
Proof.
  intros Hfirst Hlater. apply scan_rec_post in Hfirst as (_ & Hkey & _).
  apply later_visited in Hlater.
  apply scan_rec_visited. apply Hlater, Hkey.
Qed.

Lemma scan_command_second_visit_witness :
  exists r1 sc1,
    scan_command echo_tool [L "tool"; L "build"] 1 None new_scanner = Some (r1, sc1) /\
    scan_command echo_tool [L "tool"; L "build"] 1 (Some tool_help) sc1
    = Some (error_node "already_visited", sc1).
Proof.
  eexists. eexists. split.
  - vm_compute. reflexivity.
  - eapply (scan_command_second_visit echo_tool [L "tool"; L "build"] 1 None new_scanner).
    + vm_compute. reflexivity.
    + apply later_now.
Defined.

(** C2 (as amended).  A call at a depth above 5 runs no program.  On a
    path not yet visited it marks the path and answers
    [max_depth_exceeded]; on a path already visited the earlier guard
    answers [already_visited] and the scanner is unchanged. *)
Theorem scan_command_beyond_max_depth (run : process) cmd_path depth ph sc :
  depth > 5 ->
  exists r sc',
    scan_command run cmd_path depth ph sc = Some (r, sc') /\
    invoked sc' = invoked sc /\
    (key_of cmd_path ∉ visited sc ->
     r = error_node "max_depth_exceeded" /\
     visited sc' = {[ key_of cmd_path ]} ∪ visited sc) /\
    (key_of cmd_path ∈ visited sc ->
     r = error_node "already_visited" /\ sc' = sc).
Proof.
  intros Hd. unfold scan_command.
  destruct (decide (key_of cmd_path ∈ visited sc)) as [Hin|Hin].
  - rewrite scan_rec_visited by exact Hin.
    eexists _, _. split; [reflexivity|]. split; [reflexivity|].
    split; [intros Hout; contradiction | intros _; split; reflexivity].
  - rewrite scan_rec_too_deep by assumption.
    eexists _, _. split; [reflexivity|]. split; [reflexivity|].
    split; [intros _; split; reflexivity | intros Hout; contradiction].
Qed.

Lemma scan_command_beyond_max_depth_witness :
  exists r sc',
    scan_command silent_tool [L "tool"] 6 None new_scanner = Some (r, sc') /\
    invoked sc' = invoked new_scanner /\
    (key_of [L "tool"] ∉ visited new_scanner ->
     r = error_node "max_depth_exceeded" /\
     visited sc' = {[ key_of [L "tool"] ]} ∪ visited new_scanner) /\
    (key_of [L "tool"] ∈ visited new_scanner ->
     r = error_node "already_visited" /\ sc' = new_scanner).
Proof.
  apply (scan_command_beyond_max_depth silent_tool [L "tool"] 6 None new_scanner).
  lia.
Defined.

(** C2 as stated fails: at depth 6, a path that was visited before is
    answered by the visited guard, not by the depth guard. *)
Lemma scan_command_depth_guard_comes_second :
  6 > 5 /\
  scan_command silent_tool [L "tool"; L "sub"] 6 None seen_tool_sub
  = Some (error_node "already_visited", seen_tool_sub) /\
  error_node "already_visited" <> error_node "max_depth_exceeded".
Proof.
  split; [lia|]. split.
  - apply scan_rec_visited. unfold seen_tool_sub. simpl.
    apply elem_of_singleton. reflexivity.
  - discriminate.
Qed.

Lemma same_as_parent_true ph h :
  ph <> [] -> Py.strip h = Py.strip ph -> same_as_parent (Some ph) h = true.
Proof.
  intros Hph Heq. unfold same_as_parent.
  destruct ph; [contradiction|]. simpl. now apply str_eqb_eq.
Qed.

(** C3 (as amended).  A probe that is given a non-empty parent help
    and captures a non-empty text which, once trimmed, is equal to the
    parent help, as it is or trimmed as well, answers
    [invalid_subcommand]; the only program run is the probe itself and
    the only path marked is its own: no nested call is made. *)
Theorem scan_command_invalid_subcommand (run : process) cmd_path depth ph h sc :
  key_of cmd_path ∉ visited sc ->
  depth <= 5 ->
  run_command run (help_argv cmd_path) = Some h ->
  h <> [] ->
  ph <> [] ->
  Py.strip h = ph \/ Py.strip h = Py.strip ph ->
  scan_command run cmd_path depth (Some ph) sc
  = Some (error_node "invalid_subcommand", mark_probed cmd_path sc).
Proof.
  intros Hin Hd Hrun Hh Hph Heq. apply scan_rec_leaf; try assumption.
  rewrite Hrun. unfold leaf_answer.
  destruct h; [contradiction|]. simpl negb. cbv iota.
  rewrite same_as_parent_true; [reflexivity | exact Hph |].
  destruct Heq as [<- | Heq]; [|exact Heq].
  symmetry. apply strip_with_idem.
Qed.

Lemma scan_command_invalid_subcommand_witness :
  scan_command echo_tool [L "tool"; L "build"] 1 (Some tool_help) new_scanner
  = Some (error_node "invalid_subcommand",
          mark_probed [L "tool"; L "build"] new_scanner).
Proof.
  apply (scan_command_invalid_subcommand echo_tool [L "tool"; L "build"] 1
           tool_help tool_help new_scanner).
  - apply not_elem_of_empty.
  - lia.
  - vm_compute. reflexivity.
  - discriminate.
  - discriminate.
  - right. reflexivity.
Defined.

(** C3 as stated fails: an empty parent help counts as no parent help.
    The captured text is one space, which trimmed is equal to the
    empty parent help, and the answer is a [raw] node. *)
Lemma scan_command_empty_parent_help :
  run_command blank_tool (help_argv [L "tool"]) = Some (L " ") /\
  Py.strip (L " ") = [] /\
  scan_command blank_tool [L "tool"] 0 (Some []) new_scanner
  = Some ([ (L "format", VStr (L "raw")); (L "raw_help", VStr (L " ")) ],
          mark_probed [L "tool"] new_scanner) /\
  [ (L "format", VStr (L "raw")); (L "raw_help", VStr (L " ")) ]
  <> error_node "invalid_subcommand".
Proof.
  split; [vm_compute; reflexivity|]. split; [vm_compute; reflexivity|].
  split; [vm_compute; reflexivity | discriminate].
Qed.

Lemma contains_truthy sub c h :
  Py.contains (c :: sub) h = true -> Py.truthy h = true.
Proof. destruct h; [discriminate | reflexivity]. Qed.

Lemma serialization_marker_is_error_marker h :
  Py.contains serialization_marker h = true -> has_error_marker h = true.
Proof.
  intros H. unfold has_error_marker, error_markers. cbn [existsb].
  fold serialization_marker. rewrite H. now rewrite orb_true_r.
Qed.

(** C4 (as amended).  A probe whose captured text contains the
    serialization-failure marker, and is not the parent's help again,
    answers a [command_execution_error] node, which has no [format]; its
    [error_type] is [bigint_serialization] when the text contains
    [BigInt] and [unknown] otherwise. *)
Theorem scan_command_serialization_failure (run : process) cmd_path depth ph h sc :
  key_of cmd_path ∉ visited sc ->
  depth <= 5 ->
  run_command run (help_argv cmd_path) = Some h ->
  same_as_parent ph h = false ->
  Py.contains serialization_marker h = true ->
  exists r,
    scan_command run cmd_path depth ph sc = Some (r, mark_probed cmd_path sc) /\
    dict_get (L "error") r = Some (VStr (L "command_execution_error")) /\
    dict_get (L "format") r = None /\
    dict_get (L "error_type") r
    = Some (VStr (if Py.contains (L "BigInt") h
                  then L "bigint_serialization" else L "unknown")).
Proof.
  intros Hin Hd Hrun Hparent Hmark. exists (execution_error h). split.
  - apply scan_rec_leaf; try assumption.
    rewrite Hrun. unfold leaf_answer.
    rewrite (contains_truthy _ _ _ Hmark). simpl negb. cbv iota.
    now rewrite Hparent, serialization_marker_is_error_marker.
  - repeat split; reflexivity.
Qed.

Lemma scan_command_serialization_failure_witness :
  exists r,
    scan_command bigint_tool [L "tool"] 0 None new_scanner
    = Some (r, mark_probed [L "tool"] new_scanner) /\
    dict_get (L "error") r = Some (VStr (L "command_execution_error")) /\
    dict_get (L "format") r = None /\
    dict_get (L "error_type") r
    = Some (VStr (if Py.contains (L "BigInt")
                       (L "TypeError: Do not know how to serialize a BigInt")
                  then L "bigint_serialization" else L "unknown")).
Proof.
  apply (scan_command_serialization_failure bigint_tool [L "tool"] 0 None
           (L "TypeError: Do not know how to serialize a BigInt") new_scanner).
  - apply not_elem_of_empty.
  - lia.
  - vm_compute. reflexivity.
  - reflexivity.
  - vm_compute. reflexivity.
Defined.

(** C4 as stated fails: a text with the serialization-failure marker
    but without [BigInt] gets the sub-kind [unknown]. *)
Lemma scan_command_serialization_marker_unknown :
  Py.contains serialization_marker
    (L "TypeError: Do not know how to serialize a Symbol") = true /\
  (match scan_command broken_tool [L "tool"] 0 None new_scanner with
   | Some (r, _) => dict_get (L "error_type") r
   | None => None
   end) = Some (VStr (L "unknown")) /\
  L "unknown" <> L "bigint_serialization".
Proof. split; [|split]; [vm_compute; reflexivity .. | discriminate]. Qed.

(** C9.  In the tree that [scan_command] answers, a node with an
    [error] key has no [subcommands] key. *)
Theorem scan_command_errors_childless (run : process) cmd_path depth ph sc tree sc' n :
  scan_command run cmd_path depth ph sc = Some (tree, sc') ->
  node_of tree n ->
  is_error_node n = true ->
  has_children n = false.
Proof.
  intros Hscan Hn Herr. apply scan_rec_post in Hscan as (_ & _ & Hok).
  now apply Hok.
Qed.

Lemma scan_command_errors_childless_witness :
  exists tree sc',
    scan_command echo_tool [L "tool"] 0 None new_scanner = Some (tree, sc') /\
    node_of tree (error_node "invalid_subcommand") /\
    has_children (error_node "invalid_subcommand") = false.
Proof.
  eexists. eexists.
  assert (Hscan : scan_command echo_tool [L "tool"] 0 None new_scanner
                  = Some (commander_node tool_help
                            [(L "build", VDict (error_node "invalid_subcommand"))],
                          mark_probed [L "tool"; L "build"]
                                      (mark_probed [L "tool"] new_scanner)))
    by (vm_compute; reflexivity).
  assert (Hnode : node_of (commander_node tool_help
                             [(L "build", VDict (error_node "invalid_subcommand"))])
                          (error_node "invalid_subcommand")).
  { eapply node_child; [reflexivity | left; reflexivity | apply node_root]. }
  split; [exact Hscan|]. split; [exact Hnode|].
  apply (scan_command_errors_childless echo_tool [L "tool"] 0 None new_scanner _ _ _
           Hscan Hnode).
  reflexivity.
Defined.

(** C10.  When the program runs but the captured text, once the escape
    sequences are stripped, is empty, the probe answers
    [no_help_output]: the same answer, and the same scanner, as when the
    program cannot be run or times out. *)
Theorem scan_command_empty_output (run : process) cmd_path depth ph sc stdout stderr :
  key_of cmd_path ∉ visited sc ->
  depth <= 5 ->
  run (help_argv cmd_path) = Some (stdout, stderr) ->
  strip_ansi (stdout ++ stderr) = [] ->
  scan_command run cmd_path depth ph sc
  = Some (error_node "no_help_output", mark_probed cmd_path sc) /\
  forall failing : process,
    failing (help_argv cmd_path) = None ->
    scan_command failing cmd_path depth ph sc
    = scan_command run cmd_path depth ph sc.
Proof.
  intros Hin Hd Hrun Hempty.
  assert (H : scan_command run cmd_path depth ph sc
              = Some (error_node "no_help_output", mark_probed cmd_path sc)).
  { apply scan_rec_leaf; try assumption.
    unfold run_command. rewrite Hrun, Hempty. reflexivity. }
  split; [exact H|]. intros failing Hfail. rewrite H.
  apply scan_rec_leaf; try assumption.
  unfold run_command. now rewrite Hfail.
Qed.

Lemma scan_command_empty_output_witness :
  scan_command silent_tool [L "tool"] 0 None new_scanner
  = Some (error_node "no_help_output", mark_probed [L "tool"] new_scanner) /\
  forall failing : process,
    failing (help_argv [L "tool"]) = None ->
    scan_command failing [L "tool"] 0 None new_scanner
    = scan_command silent_tool [L "tool"] 0 None new_scanner.
Proof.
  apply (scan_command_empty_output silent_tool [L "tool"] 0 None new_scanner
           [] ([esc] ++ L "[0m")).
  - apply not_elem_of_empty.
  - lia.
  - vm_compute. reflexivity.
  - vm_compute. reflexivity.
Defined.

(** ** The matcher *)

Section Repetition.
Context {A : Type}.
Implicit Types (k : str -> str -> option A).

(** A greedy repetition fails when the rest of the pattern fails
    after every run of the class it can take. *)
Lemma rep_greedy_none p lo hi pre s k :
  (forall a b, s = a ++ b -> Forall (fun c => p c = true) a ->
               k (rev a ++ pre) b = None) ->
  rep_greedy p lo hi pre s k = None.
Proof.
  revert lo hi pre. induction s as [|c s IH]; intros lo hi pre Hk.
  - assert (Hstop : (if Nat.eqb lo 0 then k pre [] else None) = None).
    { destruct (Nat.eqb lo 0); [|reflexivity]. apply (Hk [] []); auto. }
    simpl. destruct hi as [[|h]|]; exact Hstop.
  - assert (Hstop : (if Nat.eqb lo 0 then k pre (c :: s) else None) = None).
    { destruct (Nat.eqb lo 0); [|reflexivity]. apply (Hk [] (c :: s)); auto. }
    assert (Hrec : forall lo' hi', p c = true ->
                     rep_greedy p lo' hi' (c :: pre) s k = None).
    { intros lo' hi' Hp. apply IH. intros a b Hab Ha.
      specialize (Hk (c :: a) b). simpl in Hk. rewrite <- app_assoc in Hk.
      apply Hk; [now rewrite Hab | now constructor]. }
    cbn [rep_greedy]. destruct hi as [[|h]|]; [exact Hstop | |];
      (destruct (p c) eqn:Hp; [rewrite Hrec by reflexivity|]; exact Hstop).
Qed.

(** A greedy repetition without upper bound takes the whole run of
    the class when the rest of the pattern then succeeds. *)
Lemma rep_greedy_all p lo pre a b k x :
  Forall (fun c => p c = true) a ->
  (lo <= length a)%nat ->
  clean_start p b ->
  k (rev a ++ pre) b = Some x ->
  rep_greedy p lo None pre (a ++ b) k = Some x.
Proof.
  revert lo pre. induction a as [|c a IH]; intros lo pre Ha Hlo Hb Hk.
  - simpl in *. assert (lo = 0%nat) as -> by lia.
    destruct b as [|c b]; simpl; [exact Hk|].
    simpl in Hb. now rewrite Hb.
  - inversion Ha as [|? ? Hc Ha']; subst.
    cbn [app rep_greedy option_map]. rewrite Hc.
    rewrite (IH (Nat.pred lo) (c :: pre)); auto.
    + simpl in Hlo. lia.
    + simpl in Hk. now rewrite <- app_assoc in Hk.
Qed.
End Repetition.

(** ** Continuation lines of the sectioned dialect *)

Lemma spaces_are_space n : Forall (fun c => Py.isspace c = true) (repeat " "%char n).
Proof. induction n; simpl; constructor; auto. Qed.

Lemma rev_spaces n : rev (repeat " "%char n) = repeat " "%char n.
Proof.
  induction n as [|n IH]; [reflexivity|]. simpl. rewrite IH.
  clear IH. induction n as [|n IH]; [reflexivity|]. simpl. now rewrite IH.
Qed.

Lemma lstrip_indented n c body :
  Py.isspace c = false ->
  Py.lstrip_with Py.isspace (indented n (c :: body)) = c :: body.
Proof.
  intros Hc. unfold indented. induction n as [|n IH]; simpl.
  - now rewrite Hc.
  - exact IH.
Qed.

Lemma lstrip_keeps_last p w c :
  p c = false -> exists u, Py.lstrip_with p (w ++ [c]) = u ++ [c].
Proof.
  intros Hc. induction w as [|x w [u IH]]; simpl.
  - rewrite Hc. now exists [].
  - destruct (p x); [now exists u|]. now exists (x :: w).
Qed.

Lemma rstrip_keeps_first p c s :
  p c = false -> exists t, Py.rstrip_with p (c :: s) = c :: t.
Proof.
  intros Hc. unfold Py.rstrip_with. simpl.
  destruct (lstrip_keeps_last p (rev s) c Hc) as [u ->].
  rewrite rev_app_distr. simpl. eauto.
Qed.

Lemma strip_indented n c body :
  Py.isspace c = false ->
  Py.strip (indented n (c :: body)) = Py.strip (c :: body) /\
  exists t, Py.strip (c :: body) = c :: t.
Proof.
  intros Hc. unfold Py.strip, Py.strip_with.
  rewrite lstrip_indented by exact Hc.
  rewrite (lstrip_fixed Py.isspace (c :: body)) by exact Hc.
  split; [reflexivity|]. now apply rstrip_keeps_first.
Qed.

Lemma indented_not_header n text :
  (3 <= n)%nat -> is_section_header (indented n text) = None.
Proof.
  intros Hn. destruct n as [|[|[|n]]]; try lia. reflexivity.
Qed.

(** The text after a run of white space taken from an indented line
    does not start with a dash. *)
Lemma indented_split n c body a b :
  Py.isspace c = false -> c <> "-"%char ->
  indented n (c :: body) = a ++ b ->
  Forall (fun x => Py.isspace x = true) a ->
  match b with x :: _ => ch "-" x = false | [] => True end.
Proof.
  intros Hc Hdash. revert a. unfold indented.
  induction n as [|n IH]; intros a Hab Ha.
  - destruct a as [|x a]; simpl in Hab.
    + subst b. unfold ch. destruct (Py.ascii_eqb c "-") eqn:E; [|reflexivity].
      apply ascii_eqb_eq in E. contradiction.
    + injection Hab as <- _. inversion Ha; congruence.
  - destruct a as [|x a]; simpl in Hab.
    + subst b. reflexivity.
    + injection Hab as <- Hab. inversion Ha; subst. now apply IH with (a := a).
Qed.

Lemma indented_not_option n c body :
  Py.isspace c = false -> c <> "-"%char ->
  rmatch custom_option_re (indented n (c :: body)) = None.
Proof.
  intros Hc Hdash. unfold rmatch, custom_option_re, start.
  cbn [cat run plus at_bol consumed rest groups].
  apply rep_greedy_none. intros a b Hab Ha.
  pose proof (indented_split n c body a b Hc Hdash Hab Ha) as Hb.
  destruct b as [|x b]; cbn [lit L list_ascii_of_string run rest]; [reflexivity|].
  now rewrite Hb.
Qed.

Lemma firstn_of_app {T : Type} (u v : list T) :
  firstn (length (u ++ v) - length v) (u ++ v) = u.
Proof.
  rewrite length_app. replace (length u + length v - length v)%nat with (length u) by lia.
  rewrite firstn_app, firstn_all, Nat.sub_diag. simpl. apply app_nil_r.
Qed.

Lemma indented_description n text :
  (10 <= n)%nat -> continuation_text text ->
  exists m, rmatch description_re (indented n text) = Some m /\
            group_or_empty 1 m = text.
Proof.
  intros Hn [Hhead Hany]. destruct text as [|c body]; [contradiction|].
  destruct Hhead as [Hc _].
  eexists. split.
  - unfold rmatch, description_re, start, indented.
    cbn [cat run at_least plus at_bol consumed rest groups].
    apply rep_greedy_all.
    + apply spaces_are_space.
    + rewrite repeat_length. exact Hn.
    + exact Hc.
    + cbn [consumed rest groups].
      rewrite <- (app_nil_r (c :: body)) at 1.
      apply rep_greedy_all; [exact Hany | simpl; lia | exact I |].
      reflexivity.
  - unfold group_or_empty, group. cbn [groups lookup_group Nat.eqb consumed].
    rewrite firstn_of_app. apply rev_involutive.
Qed.



Lemma letter_not_space x : Py.is_AZ x = true -> Py.isspace x = false.
Proof. each_char x; discriminate. Qed.




Lemma custom_line_continuation st i ptr n text :
  current_section st = Some i ->
  current_option st = Some ptr ->
  (10 <= n)%nat ->
  continuation_text text ->
  custom_line st (indented n text)
  = CustomState (assign_description ptr (Py.strip text) (sections st))
                (Some i) (Some ptr).
Proof.
  intros Hsec Hopt Hn Htext.
  destruct (indented_description n text Hn Htext) as (m & Hm & Hg).
  destruct Htext as [Hhead _]. destruct text as [|c body]; [contradiction|].
  destruct Hhead as [Hc Hdash].
  destruct (strip_indented n c body Hc) as (Hstrip & t & Ht).
  unfold custom_line.
  rewrite indented_not_header by lia. rewrite Hsec.
  rewrite indented_not_option by assumption. rewrite Hopt.
  rewrite Hstrip, Ht. cbn [Py.truthy andb].
  assert (Hpre : Py.startswith (L "--") (c :: t) = false).
  { change (L "--") with ["-"%char; "-"%char]. cbn [Py.startswith].
    destruct (Py.ascii_eqb "-" c) eqn:E; [|reflexivity].
    apply ascii_eqb_eq in E. congruence. }
  rewrite Hpre. cbn [negb]. rewrite Hm, Hg, <- Ht. reflexivity.
Qed.







Lemma option_at_assign ptr d secs o :
  option_at ptr secs = Some o ->
  option_at ptr (assign_description ptr d secs)
  = Some (CustomOption (o_flag o) (o_default o) (o_env o) d).
Proof.
  unfold option_at, assign_description. destruct ptr as [i j]. cbn [fst snd].
  destruct (secs !! i) as [sec|] eqn:Hsec; [|discriminate].
  intros Ho. rewrite Ho.
  rewrite list_lookup_insert_eq by (eapply lookup_lt_Some; eauto). cbn [s_options].
  apply list_lookup_insert_eq. eapply lookup_lt_Some; eauto.
Qed.

Lemma custom_loop_cons st line lines :
  custom_loop st (line :: lines) = custom_loop (custom_line st line) lines.
Proof. reflexivity. Qed.






(** ** The structured parser *)

(** C5.  The structured parser on the text of the example. *)
Theorem parse_commander_help_example :
  parse_commander_help tool_help
  = [ (L "usage", VStr (L "tool [opts]"));
      (L "description", VStr (L "A short tool."));
      (L "options",
        VList [ VDict [ (L "short", VStr (L "-h"));
                        (L "long", VStr (L "--help"));
                        (L "description", VStr (L "show help")) ] ]);
      (L "commands",
        VList [ VDict [ (L "name", VStr (L "build"));
                        (L "signature", VStr (L "build [x]"));
                        (L "description", VStr (L "Builds it")) ] ]) ].
Proof. vm_compute. reflexivity. Qed.

(** ** The renderer *)

Section Rendering.
Import MarkdownGenerator.

Section RenderFacts.
Variable cfg : config.

Lemma toc_subcommands_total toc cmd_name depth subs :
  (forall d name, exists t, toc d name (depth + 1) = Some t) ->
  exists lines, toc_subcommands toc cmd_name depth subs = Some lines.
Proof.
  intros Htoc. induction subs as [|[sub_name sub_data] subs [lines IH]];
    cbn [toc_subcommands]; [eauto|].
  destruct (Htoc (as_dict sub_data) (cmd_name ++ L " " ++ sub_name)) as [t ->].
  rewrite IH. eauto.
Qed.

(** Enough nested calls are allowed: the table of contents is always
    produced. *)
Lemma generate_toc_rec_total fuel :
  forall cmd_data cmd_name depth,
    (Z.to_nat (max_depth cfg + 1 - depth) <= fuel)%nat ->
    exists t, generate_toc_rec cfg fuel cmd_data cmd_name depth = Some t.
Proof.
  induction fuel as [|fuel IH]; intros cmd_data cmd_name depth Hfuel.
  - cbn [generate_toc_rec]. destruct (depth >? max_depth cfg) eqn:Hd; [eauto|].
    rewrite Z.gtb_ltb in Hd. apply Z.ltb_ge in Hd. lia.
  - cbn [generate_toc_rec]. destruct (depth >? max_depth cfg) eqn:Hd; [eauto|].
    destruct (format_is "commander" cmd_data && dict_has (L "subcommands") cmd_data)%bool;
      [|eauto].
    destruct (toc_subcommands_total (generate_toc_rec cfg fuel) cmd_name depth
                (get_dict (L "subcommands") cmd_data)) as [lines ->]; [|eauto].
    intros d name. apply IH. lia.
Qed.

Lemma generate_toc_total cmd_data cmd_name depth :
  exists t, generate_toc cfg cmd_data cmd_name depth = Some t.
Proof. apply generate_toc_rec_total. unfold render_fuel. lia. Qed.

Lemma docs_subcommands_total docs cmd_name depth subs :
  (forall name d, exists t, docs name d (depth + 1) = Some t) ->
  exists texts, docs_subcommands docs cmd_name depth subs = Some texts.
Proof.
  intros Hdocs. induction subs as [|[sub_name sub_data] subs [texts IH]];
    cbn [docs_subcommands]; [eauto|].
  destruct (Hdocs (cmd_name ++ L " " ++ sub_name) (as_dict sub_data)) as [t ->].
  rewrite IH. eauto.
Qed.

(** Enough nested calls are allowed: the body is always produced. *)
Lemma generate_command_docs_rec_total fuel :
  forall cmd_name cmd_data depth,
    (Z.to_nat (max_depth cfg + 1 - depth) <= fuel)%nat ->
    exists t, generate_command_docs_rec cfg fuel cmd_name cmd_data depth = Some t.
Proof.
  induction fuel as [|fuel IH]; intros cmd_name cmd_data depth Hfuel.
  - cbn [generate_command_docs_rec].
    destruct (depth >? max_depth cfg) eqn:Hd; [eauto|].
    rewrite Z.gtb_ltb in Hd. apply Z.ltb_ge in Hd. lia.
  - cbn [generate_command_docs_rec].
    destruct (depth >? max_depth cfg) eqn:Hd; [eauto|].
    destruct (dict_has (L "error") cmd_data);
      [destruct (Py.str_eqb _ _); eauto|].
    destruct (format_is "commander" cmd_data).
    + destruct (dict_has (L "subcommands") cmd_data); [|eauto].
      destruct (docs_subcommands_total (generate_command_docs_rec cfg fuel)
                  cmd_name depth (get_dict (L "subcommands") cmd_data))
        as [texts ->]; [|eauto].
      intros name d. apply IH. lia.
    + destruct (format_is "custom" cmd_data); [eauto|].
      destruct (format_is "raw" cmd_data); eauto.
Qed.

Lemma generate_command_docs_total cmd_name cmd_data depth :
  exists t, generate_command_docs cfg cmd_name cmd_data depth = Some t.
Proof. apply generate_command_docs_rec_total. unfold render_fuel. lia. Qed.

Lemma generate_total data : exists document, generate cfg data = Some document.
Proof.
  unfold generate.
  destruct (generate_command_docs_total (get_str (L "command") data)
              (get_dict (L "data") data) 1) as [body ->].
  destruct (include_toc cfg).
  - destruct (generate_toc_total (get_dict (L "data") data)
                (get_str (L "command") data) 0) as [toc ->]. eauto.
  - eauto.
Qed.

(** Beyond [max_depth] the body is empty. *)
Lemma generate_command_docs_cut cmd_name cmd_data depth :
  depth > max_depth cfg ->
  generate_command_docs cfg cmd_name cmd_data depth = Some [].
Proof.
  intros Hd. apply Z.gt_lt, Z.gtb_lt in Hd.
  unfold generate_command_docs.
  destruct (render_fuel cfg depth); cbn [generate_command_docs_rec]; now rewrite Hd.
Qed.

Lemma toc_subcommands_cut fuel cmd_name subs :
  toc_subcommands (generate_toc_rec cfg fuel) cmd_name (max_depth cfg) subs = Some [].
Proof.
  assert (Hcut : forall d name,
             generate_toc_rec cfg fuel d name (max_depth cfg + 1) = Some []).
  { intros d name.
    assert (Hd : (max_depth cfg + 1 >? max_depth cfg) = true) by (apply Z.gtb_lt; lia).
    destruct fuel; cbn [generate_toc_rec]; now rewrite Hd. }
  induction subs as [|[sub_name sub_data] subs IH]; cbn [toc_subcommands]; [reflexivity|].
  rewrite Hcut, IH. reflexivity.
Qed.

Lemma generate_toc_rec_step fuel cmd_data cmd_name depth :
  (depth >? max_depth cfg) = false ->
  generate_toc_rec cfg (S fuel) cmd_data cmd_name depth
  = let line := Py.times (L "  ") depth ++ L "- [" ++ cmd_name ++ L "](#"
                ++ slugify cmd_name ++ L ")" in
    if (format_is "commander" cmd_data && dict_has (L "subcommands") cmd_data)%bool
    then match toc_subcommands (generate_toc_rec cfg fuel) cmd_name depth
                 (get_dict (L "subcommands") cmd_data) with
         | Some lines => Some (Py.join [nl] (line :: lines))
         | None => None
         end
    else Some (Py.join [nl] [line]).
Proof. intros Hd. cbn [generate_toc_rec]. now rewrite Hd. Qed.

(** The table of contents, which starts at depth 0, still lists a
    node at depth [max_depth]; the body, which starts at depth 1,
    has nothing for a node at the same distance from the root. *)
Lemma toc_lists_what_body_omits cmd_data cmd_name :
  generate_toc cfg cmd_data cmd_name (max_depth cfg)
  = Some (Py.times (L "  ") (max_depth cfg) ++ L "- [" ++ cmd_name ++ L "](#"
          ++ slugify cmd_name ++ L ")") /\
  generate_command_docs cfg cmd_name cmd_data (max_depth cfg + 1) = Some [].
Proof.
  split; [|apply generate_command_docs_cut; lia].
  unfold generate_toc, render_fuel.
  replace (max_depth cfg + 1 - max_depth cfg) with 1 by lia.
  change (Z.to_nat 1) with 1%nat.
  rewrite generate_toc_rec_step by (rewrite Z.gtb_ltb; apply Z.ltb_irrefl).
  cbv zeta.
  destruct (format_is "commander" cmd_data && dict_has (L "subcommands") cmd_data)%bool;
    [|reflexivity].
  rewrite toc_subcommands_cut. reflexivity.
Qed.
End RenderFacts.

(** C8: the claim fails on the code.  With the default configuration,
    the command five levels below the root of a scanned tree has an
    entry in the table of contents and no section in the body. *)
Theorem toc_entry_without_section :
  exists data toc body,
    scan deep_tool (L "t") (L "today") = Some data /\
    generate_toc get_default_config (get_dict (L "data") data) (L "t") 0 = Some toc /\
    generate_command_docs get_default_config (L "t") (get_dict (L "data") data) 1
    = Some body /\
    Py.contains (L "- [t sub sub sub sub sub](#t-sub-sub-sub-sub-sub)") toc = true /\
    Py.contains deepest body = false.
Proof.
  eexists _, _, _. repeat split; vm_compute; reflexivity.
Qed.

End Rendering.

(** * Further properties *)

(** ** What a successful run of the matcher has matched *)

Lemma spans_shape ml r m w m' :
  spans ml r m w m' ->
  rest m = w ++ rest m' /\ consumed m' = rev w ++ consumed m.
Proof.
  induction 1 as [ m | p c s m Hr Hp | p lo hi m w s Hr _ _ _ | p lo m w s Hr _ _
                 | r m w m' _ IH | r m | r1 r2 m w1 m1 w2 m2 _ IH1 _ IH2
                 | n r m w m1 _ IH | m _ | m _ ]; cbn [rest consumed]; auto.
  - destruct IH1 as [H1 H1'], IH2 as [H2 H2']. split.
    + rewrite H1, H2. now rewrite app_assoc.
    + rewrite H2', H1', rev_app_distr. now rewrite app_assoc.
Qed.

Section RepetitionInversion.
Context {A : Type}.
Implicit Types (k : str -> str -> option A).

Lemma rep_greedy_some p lo hi pre s k x :
  rep_greedy p lo hi pre s k = Some x ->
  exists w s', s = w ++ s' /\ Forall (fun c => p c = true) w /\
               (lo <= length w)%nat /\
               (forall h, hi = Some h -> (length w <= h)%nat) /\
               k (rev w ++ pre) s' = Some x.
Proof.
  revert lo hi pre. induction s as [|c s IH]; intros lo hi pre H.
  - assert (Hstop : (if Nat.eqb lo 0 then k pre [] else None) = Some x).
    { destruct hi as [[|h]|]; exact H. }
    destruct (Nat.eqb lo 0) eqn:E; [|discriminate]. apply Nat.eqb_eq in E.
    exists [], []. repeat split; auto; simpl; intros; try lia.
  - assert (Hstop : (if Nat.eqb lo 0 then k pre (c :: s) else None) = Some x ->
                    exists w s', c :: s = w ++ s' /\ Forall (fun c => p c = true) w /\
                                 (lo <= length w)%nat /\
                                 (forall h, hi = Some h -> (length w <= h)%nat) /\
                                 k (rev w ++ pre) s' = Some x).
    { intros Hs. destruct (Nat.eqb lo 0) eqn:E; [|discriminate].
      apply Nat.eqb_eq in E. exists [], (c :: s).
      repeat split; auto; simpl; intros; try lia. }
    cbn [rep_greedy] in H.
    destruct hi as [[|h]|]; [now apply Hstop | |].
    + destruct (p c) eqn:Hp; [|now apply Hstop].
      destruct (rep_greedy p (Nat.pred lo) (option_map Nat.pred (Some (S h)))
                           (c :: pre) s k) as [y|] eqn:Hrec; [|now apply Hstop].
      injection H as ->. apply IH in Hrec as (w & s' & -> & Hw & Hlo & Hhi & Hk).
      exists (c :: w), s'. simpl. rewrite <- app_assoc. repeat split; auto.
      * simpl. lia.
      * intros h' [= <-]. specialize (Hhi h eq_refl). simpl. lia.
    + destruct (p c) eqn:Hp; [|now apply Hstop].
      destruct (rep_greedy p (Nat.pred lo) (option_map Nat.pred None)
                           (c :: pre) s k) as [y|] eqn:Hrec; [|now apply Hstop].
      injection H as ->. apply IH in Hrec as (w & s' & -> & Hw & Hlo & Hhi & Hk).
      exists (c :: w), s'. simpl. rewrite <- app_assoc. repeat split; auto.
      * simpl. lia.
      * intros h' [=].
Qed.

Lemma rep_lazy_some p lo pre s k x :
  rep_lazy p lo pre s k = Some x ->
  exists w s', s = w ++ s' /\ Forall (fun c => p c = true) w /\
               (lo <= length w)%nat /\
               k (rev w ++ pre) s' = Some x.
Proof.
  revert lo pre. induction s as [|c s IH]; intros lo pre H.
  - cbn [rep_lazy] in H.
    destruct (Nat.eqb lo 0) eqn:E.
    + apply Nat.eqb_eq in E. destruct (k pre []) eqn:Hk; [|discriminate].
      injection H as ->. exists [], []. repeat split; auto; simpl; lia.
    + discriminate.
  - cbn [rep_lazy] in H.
    destruct (if Nat.eqb lo 0 then k pre (c :: s) else None) as [y|] eqn:Hnow.
    + destruct (Nat.eqb lo 0) eqn:E; [|discriminate]. apply Nat.eqb_eq in E.
      injection H as ->. exists [], (c :: s). repeat split; auto; simpl; lia.
    + destruct (p c) eqn:Hp; [|discriminate].
      apply IH in H as (w & s' & -> & Hw & Hlo & Hk).
      exists (c :: w), s'. simpl. rewrite <- app_assoc. repeat split; auto.
      simpl. lia.
Qed.

End RepetitionInversion.

(** When a run of the matcher succeeds, the continuation was called at
    a position that the pattern reaches. *)
Lemma run_spans {A : Type} ml r :
  forall m (k : mstate -> option A) x,
    run ml r m k = Some x ->
    exists w m', spans ml r m w m' /\ k m' = Some x.
Proof.
  induction r as [ | p | p lo hi | p lo | r IH | r1 IH1 r2 IH2 | n r IH | | ];
    intros m k x H; cbn [run] in H.
  - exists [], m. split; [constructor | exact H].
  - destruct (rest m) as [|c s] eqn:Hr; [discriminate|].
    destruct (p c) eqn:Hp; [|discriminate].
    eexists _, _. split; [econstructor; eauto | exact H].
  - apply rep_greedy_some in H as (w & s' & Hr & Hw & Hlo & Hhi & Hk).
    eexists _, _. split; [econstructor; eauto | exact Hk].
  - apply rep_lazy_some in H as (w & s' & Hr & Hw & Hlo & Hk).
    eexists _, _. split; [econstructor; eauto | exact Hk].
  - destruct (run ml r m k) as [y|] eqn:Htry.
    + injection H as ->. apply IH in Htry as (w & m' & Hs & Hk).
      exists w, m'. split; [now apply spans_opt_taken | exact Hk].
    + exists [], m. split; [apply spans_opt_skipped | exact H].
  - apply IH1 in H as (w1 & m1 & Hs1 & H).
    apply IH2 in H as (w2 & m2 & Hs2 & H).
    exists (w1 ++ w2), m2. split; [econstructor; eauto | exact H].
  - apply IH in H as (w & m1 & Hs & H).
    destruct (spans_shape _ _ _ _ _ Hs) as [_ Hc].
    assert (Hcap : rev (firstn (length (consumed m1) - length (consumed m))
                               (consumed m1)) = w)
      by (rewrite Hc, firstn_of_app; apply rev_involutive).
    rewrite Hcap in H.
    exists w. eexists. split; [econstructor; eauto | exact H].
  - destruct (at_bol ml m) eqn:E; [|discriminate].
    exists [], m. split; [now constructor | exact H].
  - destruct (at_eol ml m) eqn:E; [|discriminate].
    exists [], m. split; [now constructor | exact H].
Qed.

Lemma rmatch_spans r s m :
  rmatch r s = Some m -> exists w, spans false r (start s) w m.
Proof.
  unfold rmatch. intros H. apply run_spans in H as (w & m' & Hs & [= <-]). eauto.
Qed.

Lemma ch_true x c : ch x c = true -> c = x.
Proof. unfold ch. apply ascii_eqb_eq. Qed.

Lemma spans_seq_inv ml r1 r2 m w m' :
  spans ml (Seq r1 r2) m w m' ->
  exists w1 m1 w2, w = w1 ++ w2 /\ spans ml r1 m w1 m1 /\ spans ml r2 m1 w2 m'.
Proof. intros H. inversion H; subst. eauto 6. Qed.

Lemma spans_grp_inv ml n r m w m' :
  spans ml (Grp n r) m w m' ->
  exists m1, spans ml r m w m1 /\ groups m' = (n, w) :: groups m1.
Proof. intros H. inversion H; subst. eauto. Qed.

Lemma spans_opt_inv ml r m w m' :
  spans ml (Opt r) m w m' -> spans ml r m w m' \/ (w = [] /\ m' = m).
Proof. intros H. inversion H; subst; auto. Qed.

Lemma spans_chr_inv ml p m w m' :
  spans ml (Chr p) m w m' -> exists c, w = [c] /\ p c = true.
Proof. intros H. inversion H; subst. eauto. Qed.

Lemma spans_rep_inv ml p lo hi m w m' :
  spans ml (Rep p lo hi) m w m' ->
  Forall (fun c => p c = true) w /\ (lo <= length w)%nat.
Proof. intros H. inversion H; subst. auto. Qed.

Lemma spans_rep_lazy_inv ml p lo m w m' :
  spans ml (RepLazy p lo) m w m' ->
  Forall (fun c => p c = true) w /\ (lo <= length w)%nat.
Proof. intros H. inversion H; subst. auto. Qed.

(** A pattern without groups leaves the captured groups as they are. *)
Lemma spans_group_free ml r :
  group_free r = true ->
  forall m w m', spans ml r m w m' -> groups m' = groups m.
Proof.
  induction r as [ | p | p lo hi | p lo | r IH | r1 IH1 r2 IH2 | n r IH | | ];
    cbn [group_free]; intros Hfree m w m' H.
  - inversion H; subst. reflexivity.
  - inversion H; subst. reflexivity.
  - inversion H; subst. reflexivity.
  - inversion H; subst. reflexivity.
  - apply spans_opt_inv in H as [H | [_ ->]]; [eauto | reflexivity].
  - apply andb_true_iff in Hfree as [H1 H2].
    apply spans_seq_inv in H as (w1 & m1 & w2 & _ & Hs1 & Hs2).
    rewrite (IH2 H2 _ _ _ Hs2). eauto.
  - discriminate.
  - inversion H; subst. reflexivity.
  - inversion H; subst. reflexivity.
Qed.

Lemma spans_lit ml s m w m' : spans ml (lit s) m w m' -> w = s.
Proof.
  revert m w. induction s as [|c s IH]; intros m w H; cbn [lit] in H.
  - inversion H; subst. reflexivity.
  - apply spans_seq_inv in H as (w1 & m1 & w2 & -> & Hs1 & Hs2).
    apply spans_chr_inv in Hs1 as (x & -> & Hx). apply ch_true in Hx as ->.
    apply IH in Hs2 as ->. reflexivity.
Qed.

Lemma lit_group_free s : group_free (lit s) = true.
Proof. induction s; simpl; auto. Qed.

(** ** The groups of the parsers' patterns *)

(** The groups of a match of the option pattern of the structured
    dialect: the long flag starts with two dashes and has more to it,
    the short flag, when there is one, starts with a dash. *)
Lemma commander_option_groups line m :
  rmatch commander_option_re line = Some m ->
  (exists long, group 2 m = Some ("-"%char :: "-"%char :: long) /\ long <> []) /\
  (group 1 m = None \/ exists short, group 1 m = Some ("-"%char :: short)) /\
  (exists description, group 3 m = Some description).
Proof.
  intros H. apply rmatch_spans in H as [w H].
  unfold commander_option_re in H. cbn [cat] in H.
  apply spans_seq_inv in H as (w1 & m1 & ? & -> & H1 & H).
  apply spans_seq_inv in H as (wo1 & m2 & ? & -> & H2 & H).
  apply spans_seq_inv in H as (wo2 & m3 & ? & -> & H3 & H).
  apply spans_seq_inv in H as (w2 & m4 & ? & -> & H4 & H).
  apply spans_seq_inv in H as (w5 & m5 & w3 & -> & H5 & H6).
  eapply spans_group_free in H1; [|reflexivity]. cbn [start groups] in H1.
  eapply spans_group_free in H3; [|reflexivity].
  eapply spans_group_free in H5; [|reflexivity].
  apply spans_grp_inv in H6 as (m6 & H6 & Hg6).
  eapply spans_group_free in H6; [|reflexivity].
  apply spans_grp_inv in H4 as (m7 & H4 & Hg4).
  apply spans_seq_inv in H4 as (wl & m8 & wr & -> & Hlit & H4).
  apply spans_lit in Hlit as Hwl. subst wl.
  eapply spans_group_free in Hlit; [|apply lit_group_free].
  apply spans_seq_inv in H4 as (wn & m9 & wopt & -> & Hn & Hopt).
  apply spans_rep_inv in Hn as Hlen. destruct Hlen as [_ Hlen].
  eapply spans_group_free in Hn; [|reflexivity].
  eapply spans_group_free in Hopt; [|reflexivity].
  assert (Hgroups : groups m = (3%nat, w3) :: (2%nat, L "--" ++ wn ++ wopt) :: groups m2).
  { rewrite Hg6, H6, H5, Hg4, Hopt, Hn, Hlit, H3. reflexivity. }
  unfold group. rewrite Hgroups. cbn [lookup_group Nat.eqb].
  split; [|split].
  - exists (wn ++ wopt). split; [reflexivity|].
    destruct wn; [simpl in Hlen; lia | discriminate].
  - apply spans_opt_inv in H2 as [H2 | [_ ->]].
    + apply spans_grp_inv in H2 as (m10 & H2 & Hg2).
      apply spans_seq_inv in H2 as (wd & m11 & ws & -> & Hd & Hs).
      apply spans_chr_inv in Hd as Hc. destruct Hc as (c & -> & Hc).
      apply ch_true in Hc as ->.
      eapply spans_group_free in Hd; [|reflexivity].
      eapply spans_group_free in Hs; [|reflexivity].
      right. exists ws. rewrite Hg2. reflexivity.
    + left. rewrite H1. reflexivity.
  - eauto.
Qed.

(** The group of a match of the option pattern of the sectioned
    dialect starts with two dashes. *)
Lemma custom_option_group line m :
  rmatch custom_option_re line = Some m ->
  exists flag, group 1 m = Some ("-"%char :: "-"%char :: flag) /\ flag <> [] /\
               Forall (fun c => any c = true) flag.
Proof.
  intros H. apply rmatch_spans in H as [w H].
  unfold custom_option_re in H. cbn [cat] in H.
  apply spans_seq_inv in H as (w0 & m0 & ? & -> & H0 & H).
  apply spans_seq_inv in H as (w1 & m1 & ? & -> & H1 & H).
  apply spans_seq_inv in H as (w2 & m2 & w3 & -> & H2 & H3).
  eapply spans_group_free in H3; [|reflexivity].
  apply spans_grp_inv in H2 as (m4 & H2 & Hg2).
  apply spans_seq_inv in H2 as (wl & m5 & wf & -> & Hlit & Hf).
  apply spans_lit in Hlit as ->.
  apply spans_rep_lazy_inv in Hf as [Hany Hlen].
  unfold group. rewrite H3, Hg2. cbn [lookup_group Nat.eqb].
  exists wf. split; [reflexivity|]. split; [|exact Hany].
  destruct wf; [simpl in Hlen; lia | discriminate].
Qed.

(** The group of a match of the section pattern starts with a capital
    letter and holds capital letters and white space only. *)
Lemma section_group line m :
  rmatch section_re line = Some m ->
  exists c name, group 1 m = Some (c :: name) /\ Py.is_AZ c = true /\
                 name <> [] /\
                 Forall (fun x => either Py.is_AZ space x = true) name.
Proof.
  intros H. apply rmatch_spans in H as [w H].
  unfold section_re in H. cbn [cat] in H.
  apply spans_seq_inv in H as (w0 & m0 & ? & -> & H0 & H).
  apply spans_seq_inv in H as (w1 & m1 & ? & -> & H1 & H).
  apply spans_seq_inv in H as (w2 & m2 & ? & -> & H2 & H).
  apply spans_seq_inv in H as (w3 & m3 & w4 & -> & H3 & H4).
  eapply spans_group_free in H3; [|reflexivity].
  eapply spans_group_free in H4; [|reflexivity].
  apply spans_grp_inv in H2 as (m5 & H2 & Hg2).
  apply spans_seq_inv in H2 as (wc & m6 & wn & -> & Hc & Hn).
  apply spans_chr_inv in Hc as (c & -> & Hc).
  apply spans_rep_lazy_inv in Hn as [Hall Hlen].
  unfold group. rewrite H4, H3, Hg2. cbn [lookup_group Nat.eqb].
  exists c, wn. split; [reflexivity|]. split; [exact Hc|]. split; [|exact Hall].
  destruct wn; [simpl in Hlen; lia | discriminate].
Qed.

(** ** More on trimming and splitting *)

Lemma lstrip_app_last p w c :
  p c = false -> Py.lstrip_with p (w ++ [c]) = Py.lstrip_with p w ++ [c].
Proof.
  intros Hc. induction w as [|x w IH]; simpl.
  - now rewrite Hc.
  - destruct (p x); [exact IH | reflexivity].
Qed.

Lemma rstrip_cons_keep p c s :
  p c = false -> Py.rstrip_with p (c :: s) = c :: Py.rstrip_with p s.
Proof.
  intros Hc. unfold Py.rstrip_with. simpl.
  rewrite lstrip_app_last by exact Hc. rewrite rev_app_distr. reflexivity.
Qed.

Lemma strip_cons_keep c s :
  Py.isspace c = false -> Py.strip (c :: s) = c :: Py.rstrip_with Py.isspace s.
Proof.
  intros Hc. unfold Py.strip, Py.strip_with.
  rewrite (lstrip_fixed Py.isspace (c :: s)) by exact Hc.
  now apply rstrip_cons_keep.
Qed.

Lemma strip_clean s :
  clean_start Py.isspace (Py.strip s) /\ clean_start Py.isspace (rev (Py.strip s)).
Proof. apply strip_with_clean. Qed.

(** The first word of a text that starts with a character that is not
    white space. *)
Lemma split_ws_go_head s :
  forall cur,
    cur <> [] \/ clean_start Py.isspace s /\ s <> [] ->
    exists w ws u,
      Py.split_ws_go cur s = (rev cur ++ w) :: ws /\
      s = w ++ u /\
      Forall (fun c => Py.isspace c = false) w /\
      rev cur ++ w <> [].
Proof.
  induction s as [|c s IH]; intros cur Hcur.
  - destruct cur as [|x cur]; [destruct Hcur as [H|[_ H]]; contradiction|].
    exists [], [], []. simpl. rewrite app_nil_r. repeat split; auto.
    intros H. apply app_eq_nil in H as [_ H]. discriminate.
  - cbn [Py.split_ws_go]. destruct (Py.isspace c) eqn:Hc.
    + destruct cur as [|x cur].
      * destruct Hcur as [H|[H _]]; [contradiction|]. simpl in H. congruence.
      * exists [], (Py.split_ws_go [] s), (c :: s). rewrite app_nil_r.
        repeat split; auto. simpl. intros H. apply app_eq_nil in H as [_ H]. discriminate.
    + destruct (IH (c :: cur)) as (w & ws & u & Heq & -> & Hw & Hne); [left; discriminate|].
      exists (c :: w), ws, u. simpl in Heq, Hne. rewrite <- app_assoc in Heq, Hne.
      repeat split; auto.
Qed.

Lemma split_ws_first c t :
  Py.isspace c = false ->
  exists w u, hd [] (Py.split_ws (c :: t)) = c :: w /\
              c :: t = (c :: w) ++ u /\
              Forall (fun x => Py.isspace x = false) (c :: w).
Proof.
  intros Hc. unfold Py.split_ws.
  destruct (split_ws_go_head (c :: t) []) as (w & ws & u & Heq & Hs & Hw & Hne).
  { right. split; [exact Hc | discriminate]. }
  rewrite Heq. simpl in *. destruct w as [|x w]; [contradiction|].
  injection Hs as <- Hs. exists w, u. repeat split; auto. now rewrite Hs.
Qed.

(** Where [search_go] finds its match. *)
Lemma search_go_some ml r s :
  forall pre found m,
    search_go ml r pre s = Some (found, m) ->
    exists a b, s = a ++ b /\ found = rev a ++ pre /\
                run ml r (MState found b []) Some = Some m.
Proof.
  induction s as [|c s IH]; intros pre found m H; cbn [search_go] in H.
  - destruct (run ml r (MState pre [] []) Some) as [m'|] eqn:E; [|discriminate].
    injection H as <- <-. exists [], []. auto.
  - destruct (run ml r (MState pre (c :: s) []) Some) as [m'|] eqn:E.
    + injection H as <- <-. exists [], (c :: s). auto.
    + apply IH in H as (a & b & -> & -> & Hrun).
      exists (c :: a), b. simpl. rewrite <- app_assoc. auto.
Qed.

(** [re.split] on two or more white-space characters: the first part
    ends where such a run starts. *)
Lemma split1_two s part0 part1 :
  split1 (at_least 2 space) s = [part0; part1] ->
  exists w, s = part0 ++ w ++ part1 /\
            (2 <= length w)%nat /\ Forall (fun c => Py.isspace c = true) w.
Proof.
  unfold split1. destruct (search_go false (at_least 2 space) [] s) as [[found m]|] eqn:E;
    [|discriminate].
  intros [= <- <-].
  apply search_go_some in E as (a & b & -> & -> & Hrun).
  apply run_spans in Hrun as (w & m' & Hs & [= ->]).
  destruct (spans_shape _ _ _ _ _ Hs) as [Hrest _]. cbn [rest] in Hrest.
  apply spans_rep_inv in Hs as [Hw Hlen].
  exists w. rewrite app_nil_r, rev_involutive. subst b. auto.
Qed.

(** ** The structured parser: what an entry looks like *)

Lemma strip_idem s : Py.strip (Py.strip s) = Py.strip s.
Proof. apply strip_with_idem. Qed.

Lemma startswith_app p v : Py.startswith p (p ++ v) = true.
Proof. apply startswith_spec. eauto. Qed.

Lemma commander_line_options st line :
  Forall option_entry_ok (c_options st) ->
  Forall option_entry_ok (c_options (commander_line st line)).
Proof.
  intros Hst. unfold commander_line.
  repeat match goal with
         | |- context [if ?b then _ else _] => destruct b eqn:?
         end; try exact Hst.
  - destruct (rmatch commander_option_re line) as [m|] eqn:Hm; [|exact Hst].
    cbn [add_option c_options]. apply Forall_app. split; [exact Hst|].
    constructor; [|constructor].
    destruct (commander_option_groups line m Hm)
      as ((long & Hlong & _) & Hshort & (d & Hd)).
    eexists _, _, _. split; [reflexivity|]. unfold group_or_empty.
    rewrite Hlong. split; [reflexivity|]. split; [|apply strip_idem].
    destruct Hshort as [-> | [short ->]]; [now left | now right].
  - destruct (split1 _ _) as [|p0 [|p1 [|p2 ps]]]; exact Hst.
Qed.

Lemma commander_line_commands st line :
  Forall command_entry_ok (c_commands st) ->
  Forall command_entry_ok (c_commands (commander_line st line)).
Proof.
  intros Hst. unfold commander_line.
  repeat match goal with
         | |- context [if ?b then _ else _] => destruct b eqn:?
         end; try exact Hst.
  - destruct (rmatch commander_option_re line); exact Hst.
  - destruct (split1 _ _) as [|p0 [|p1 [|p2 ps]]] eqn:Hsplit; try exact Hst.
    cbn [add_command c_commands]. apply Forall_app. split; [exact Hst|].
    constructor; [|constructor].
    apply split1_two in Hsplit as (w & Hline & Hlen & Hw).
    match goal with
    | H : (Py.truthy (Py.strip line) && negb (Py.startswith (L "-") (Py.strip line)))%bool
          = true |- _ => apply andb_true_iff in H as [Htruthy Hdash]
    end.
    apply negb_true_iff in Hdash.
    destruct (strip_clean line) as [Hclean _].
    destruct p0 as [|c p0].
    { (* the line would start with white space *)
      simpl in Hline. rewrite Hline in Hclean.
      destruct w as [|x w]; [simpl in Hlen; lia|].
      inversion Hw; subst. simpl in Hclean. congruence. }
    rewrite Hline in Hclean, Hdash. simpl in Hclean.
    rewrite (strip_cons_keep c p0 Hclean).
    destruct (split_ws_first c (Py.rstrip_with Py.isspace p0) Hclean)
      as (word & u & Hhd & Hsig & Hword).
    eexists _, _, _. split; [reflexivity|]. rewrite Hhd.
    split; [discriminate|]. split; [exact Hword|]. split.
    + rewrite Hsig. apply startswith_app.
    + change (L "-") with ["-"%char] in *. cbn [Py.startswith app] in *.
      now rewrite andb_true_r in *.
Qed.

Lemma commander_loop_entries lines :
  forall st,
    Forall option_entry_ok (c_options st) ->
    Forall command_entry_ok (c_commands st) ->
    Forall option_entry_ok (c_options (fold_left commander_line lines st)) /\
    Forall command_entry_ok (c_commands (fold_left commander_line lines st)).
Proof.
  induction lines as [|line lines IH]; intros st Ho Hc; [auto|].
  simpl. apply IH; [now apply commander_line_options | now apply commander_line_commands].
Qed.

(** X1.  Every option that the structured parser returns has a long flag
    that starts with two dashes, a short flag that is empty or starts
    with a dash, and a trimmed description. *)
Theorem parse_commander_help_options (help_text : str) :
  Forall option_entry_ok (get_list (L "options") (parse_commander_help help_text)).
Proof.
  unfold parse_commander_help.
  apply (commander_loop_entries (Py.split_on nl help_text) commander_init);
    constructor.
Qed.

(** X2.  Every command that the structured parser returns has a name that
    is not empty, holds no white space, starts its signature and does
    not start with a dash: taking the first word of the signature never
    fails. *)
Theorem parse_commander_help_commands (help_text : str) :
  Forall command_entry_ok (get_list (L "commands") (parse_commander_help help_text)).
Proof.
  unfold parse_commander_help.
  apply (commander_loop_entries (Py.split_on nl help_text) commander_init);
    constructor.
Qed.

(** ** The sectioned parser: what a section looks like *)

Lemma strip_dashes flag :
  Py.startswith (L "--") (Py.strip ("-"%char :: "-"%char :: flag)) = true.
Proof.
  rewrite strip_cons_keep by reflexivity.
  rewrite rstrip_cons_keep by reflexivity. reflexivity.
Qed.

Lemma append_option_ok i o secs :
  Forall section_ok secs ->
  Py.startswith (L "--") (o_flag o) = true ->
  Forall section_ok (append_option i o secs).
Proof.
  intros Hsecs Ho. unfold append_option.
  destruct (secs !! i) as [sec|] eqn:Hsec; [|exact Hsecs].
  apply Forall_insert; [exact Hsecs|].
  destruct (Forall_lookup_1 _ _ _ _ Hsecs Hsec) as [Hname Hopts].
  split; [exact Hname|]. cbn [s_options]. apply Forall_app. split; [exact Hopts|].
  constructor; [exact Ho | constructor].
Qed.

Lemma assign_description_ok ptr d secs :
  Forall section_ok secs -> Forall section_ok (assign_description ptr d secs).
Proof.
  intros Hsecs. unfold assign_description. destruct ptr as [i j].
  destruct (secs !! i) as [sec|] eqn:Hsec; [|exact Hsecs].
  destruct (s_options sec !! j) as [o|] eqn:Ho; [|exact Hsecs].
  destruct (Forall_lookup_1 _ _ _ _ Hsecs Hsec) as [Hname Hopts].
  apply Forall_insert; [exact Hsecs|].
  split; [exact Hname|]. cbn [s_options].
  apply Forall_insert; [exact Hopts|]. cbn [o_flag].
  exact (Forall_lookup_1 _ _ _ _ Hopts Ho).
Qed.

Lemma custom_line_ok st line :
  Forall section_ok (sections st) -> Forall section_ok (sections (custom_line st line)).
Proof.
  intros Hst. unfold custom_line, is_section_header.
  destruct (rmatch section_re line) as [m|] eqn:Hm.
  - destruct (negb (Py.startswith (L "-") (Py.strip line))).
    + cbn [sections]. apply Forall_app. split; [exact Hst|].
      constructor; [|constructor].
      destruct (section_group line m Hm) as (c & name & Hg & Hc & _).
      split; [|constructor]. cbn [s_name]. unfold group_or_empty. rewrite Hg.
      rewrite strip_cons_keep by (now apply letter_not_space). eauto.
    + destruct (current_section st) as [i|]; [|exact Hst].
      destruct (rmatch custom_option_re line) as [om|] eqn:Hom.
      * cbn [sections]. apply append_option_ok; [exact Hst|]. cbn [o_flag].
        destruct (custom_option_group line om Hom) as (flag & Hg & _).
        unfold group_or_empty. rewrite Hg. apply strip_dashes.
      * destruct (current_option st); [|exact Hst].
        destruct (_ && _)%bool; [|exact Hst].
        destruct (rmatch description_re line); [|exact Hst].
        cbn [sections]. now apply assign_description_ok.
  - destruct (current_section st) as [i|]; [|exact Hst].
    destruct (rmatch custom_option_re line) as [om|] eqn:Hom.
    + cbn [sections]. apply append_option_ok; [exact Hst|]. cbn [o_flag].
      destruct (custom_option_group line om Hom) as (flag & Hg & _).
      unfold group_or_empty. rewrite Hg. apply strip_dashes.
    + destruct (current_option st); [|exact Hst].
      destruct (_ && _)%bool; [|exact Hst].
      destruct (rmatch description_re line); [|exact Hst].
      cbn [sections]. now apply assign_description_ok.
Qed.

Lemma custom_loop_ok lines :
  forall st, Forall section_ok (sections st) ->
             Forall section_ok (sections (custom_loop st lines)).
Proof.
  induction lines as [|line lines IH]; intros st Hst; [exact Hst|].
  rewrite custom_loop_cons. apply IH. now apply custom_line_ok.
Qed.

Lemma section_value_ok sec : section_ok sec -> section_entry_ok (section_value sec).
Proof.
  intros [Hname Hopts]. split; [exact Hname|].
  change (get_list (L "options") (as_dict (section_value sec)))
    with (map option_value (s_options sec)).
  apply Forall_map. exact Hopts.
Qed.

(** X3.  Every section that the sectioned parser returns has a name that
    starts with a capital letter, and every option in it has a flag
    that starts with two dashes. *)
Theorem parse_custom_help_sections (help_text : str) :
  Forall section_entry_ok (get_list (L "sections") (parse_custom_help help_text)).
Proof.
  unfold parse_custom_help.
  change (get_list (L "sections") (custom_result ?st))
    with (map section_value (sections st)).
  apply Forall_map.
  eapply Forall_impl; [|exact section_value_ok].
  apply custom_loop_ok. constructor.
Qed.

(** X4.  Without a section header nothing is kept: option lines and
    description lines that come before the first header are dropped. *)
Theorem parse_custom_help_without_header (help_text : str) :
  Forall (fun line => is_section_header line = None) (Py.split_on nl help_text) ->
  parse_custom_help help_text
  = [ (L "usage", VStr []); (L "description", VStr []); (L "sections", VList []) ].
Proof.
  intros Hlines. unfold parse_custom_help.
  enough (H : custom_loop custom_init (Py.split_on nl help_text) = custom_init)
    by now rewrite H.
  induction Hlines as [|line lines Hline _ IH]; [reflexivity|].
  rewrite custom_loop_cons. unfold custom_line at 1. rewrite Hline. exact IH.
Qed.

Lemma parse_custom_help_without_header_witness :
  parse_custom_help (L "    --port <n>  (default: 8080)" ++ [nl] ++ L "          The port")
  = [ (L "usage", VStr []); (L "description", VStr []); (L "sections", VList []) ].
Proof.
  apply parse_custom_help_without_header.
  vm_compute. repeat constructor.
Defined.

(** X5.  A section header does not reset the current option: a continuation
    line that follows the header overwrites the description of the
    option that was current before, in the section it belongs to. *)
Theorem custom_loop_description_across_sections
        (st : custom_state) ptr o header m n text :
  current_option st = Some ptr ->
  option_at ptr (sections st) = Some o ->
  is_section_header header = Some m ->
  (10 <= n)%nat ->
  continuation_text text ->
  option_at ptr (sections (custom_loop st [header; indented n text]))
  = Some (CustomOption (o_flag o) (o_default o) (o_env o) (Py.strip text)).
Proof.
  intros Hopt Hat Hheader Hn Htext.
  rewrite !custom_loop_cons. unfold custom_line at 2. rewrite Hheader.
  erewrite custom_line_continuation; [| reflexivity | exact Hopt | exact Hn | exact Htext].
  cbn [custom_loop fold_left sections]. apply option_at_assign.
  unfold option_at in *. destruct ptr as [i j]. cbn [fst snd] in *.
  destruct (sections st !! i) as [sec|] eqn:Hsec; [|discriminate].
  rewrite lookup_app_l by (eapply lookup_lt_Some; eauto). now rewrite Hsec.
Qed.

Lemma custom_loop_description_across_sections_witness :
  option_at (0%nat, 0%nat)
    (sections (custom_loop port_state [ L "  MISC"; indented 10 (L "Other things") ]))
  = Some (CustomOption (L "--port <n>") (Some (L "8080")) (Some (L "PORT"))
                       (Py.strip (L "Other things"))).
Proof.
  apply (custom_loop_description_across_sections port_state (0%nat, 0%nat)
           (CustomOption (L "--port <n>") (Some (L "8080")) (Some (L "PORT")) [])
           (L "  MISC") (MState (rev (L "  MISC")) [] [(1%nat, L "MISC")]) 10
           (L "Other things")).
  - vm_compute. reflexivity.
  - vm_compute. reflexivity.
  - vm_compute. reflexivity.
  - lia.
  - repeat constructor; vm_compute; discriminate.
Defined.

(** ** Dictionaries *)

Lemma dict_has_set k k' v d :
  dict_has k (dict_set k' v d) = (Py.str_eqb k' k || dict_has k d)%bool.
Proof.
  unfold dict_has. induction d as [|[k0 v0] d IH]; cbn [dict_set dict_get].
  - destruct (Py.str_eqb k' k); reflexivity.
  - destruct (Py.str_eqb k0 k') eqn:E0; cbn [dict_get].
    + apply str_eqb_eq in E0 as ->. destruct (Py.str_eqb k' k); reflexivity.
    + destruct (Py.str_eqb k0 k) eqn:E1.
      * now rewrite orb_true_r.
      * exact IH.
Qed.

(** ** The prober: every node of the tree *)

Section ScanNodes.
Variable run : process.
Variable P : dict -> Prop.
Hypothesis P_visited : P (error_node "already_visited").
Hypothesis P_deep : P (error_node "max_depth_exceeded").
Hypothesis P_leaf : forall ph help r, leaf_answer ph help = Some r -> P r.
Hypothesis P_commander :
  forall h subs,
    keys_are subs (get_list (L "commands") (parse_commander_help h)) ->
    P (commander_node h subs).

Lemma all_nodes_leaf r :
  dict_get (L "subcommands") r = None -> P r -> all_nodes P r.
Proof.
  intros Hnone HP n Hn. inversion Hn; subst; [exact HP | congruence].
Qed.

Lemma scan_subcommands_nodes scan cmd_path depth h :
  (forall p d ph s r s', scan p d ph s = Some (r, s') -> all_nodes P r) ->
  forall cmds cmds0 acc sc subs sc',
    scan_subcommands scan cmd_path depth h cmds acc sc = Some (subs, sc') ->
    (forall k v, In (k, v) acc -> exists child, v = VDict child /\ all_nodes P child) ->
    (forall name, dict_has name acc = true <-> scanned_names cmds0 name) ->
    (forall name, dict_has name subs = true <->
                  scanned_names cmds0 name \/ scanned_names cmds name) /\
    (forall k v, In (k, v) subs -> exists child, v = VDict child /\ all_nodes P child).
Proof.
  intros Hscan.
  induction cmds as [|cmd cmds IH]; intros cmds0 acc sc subs sc' H Hacc Hkeys.
  - simpl in H. injection H as <- <-. split; [|exact Hacc].
    intros name. rewrite Hkeys. unfold scanned_names at 3. cbn [map In]. tauto.
  - cbn [scan_subcommands] in H. revert H.
    destruct (Py.str_eqb (command_name cmd) (L "help")) eqn:Ehelp; cbn [negb].
    + intros H. apply str_eqb_eq in Ehelp.
      destruct (IH cmds0 _ _ _ _ H Hacc Hkeys) as [Hk Hn]. split; [|exact Hn].
      intros name. rewrite Hk. unfold scanned_names. cbn [map In].
      split; [tauto|]. intros [H0|[[H1|H1] H2]]; auto. congruence.
    + destruct (scan (cmd_path ++ [command_name cmd]) (depth + 1) (Some h) sc)
        as [[r s1]|] eqn:E; intros H; cbn beta iota in H; [|discriminate].
      apply str_eqb_neq in Ehelp. apply Hscan in E.
      destruct (IH (cmds0 ++ [cmd]) _ _ _ _ H) as [Hk Hn].
      * intros k v Hin. apply In_dict_set in Hin as [Hin| ->]; eauto.
      * intros name. rewrite dict_has_set, orb_true_iff, Hkeys, str_eqb_eq.
        unfold scanned_names. rewrite map_app, in_app_iff. cbn [map In].
        split.
        -- intros [<- | [H1 H2]]; auto.
        -- intros [[H1 | [H1|[]]] H2]; auto.
      * split; [|exact Hn]. intros name. rewrite Hk. unfold scanned_names.
        rewrite map_app, in_app_iff. cbn [map In]. tauto.
Qed.

Lemma all_nodes_commander h subs :
  keys_are subs (get_list (L "commands") (parse_commander_help h)) ->
  (forall k v, In (k, v) subs -> exists child, v = VDict child /\ all_nodes P child) ->
  all_nodes P (commander_node h subs).
Proof.
  intros Hkeys Hsubs n Hn. inversion Hn; subst.
  - now apply P_commander.
  - apply commander_node_children in H as ->.
    destruct (Hsubs _ _ H0) as (child' & Heq & Hok). injection Heq as <-.
    now apply Hok.
Qed.

Lemma scan_rec_nodes fuel :
  forall cmd_path depth ph sc r sc',
    scan_command_rec run fuel cmd_path depth ph sc = Some (r, sc') ->
    all_nodes P r.
Proof.
  induction fuel as [|fuel IH]; intros cmd_path depth ph sc r sc' H;
    (destruct (decide (key_of cmd_path ∈ visited sc)) as [Hin|Hin];
     [ rewrite scan_rec_visited in H by exact Hin; injection H as <- <-;
       now apply all_nodes_leaf |]);
    (destruct (Z_gt_le_dec depth 5) as [Hd|Hd];
     [ rewrite scan_rec_too_deep in H by assumption; injection H as <- <-;
       now apply all_nodes_leaf |]);
    (destruct (leaf_answer ph (run_command run (help_argv cmd_path))) as [r0|] eqn:Hleaf;
     [ rewrite (scan_rec_leaf _ _ _ _ _ _ _ Hin Hd Hleaf) in H; injection H as <- <-;
       apply all_nodes_leaf; [eapply leaf_answer_no_children | eapply P_leaf]; eauto |]).
  - apply leaf_answer_none in Hleaf as Hh. destruct Hh as [h Hh].
    cbn [scan_command_rec] in H. fold (key_of cmd_path) in H.
    fold (help_argv cmd_path) in H.
    rewrite bool_decide_eq_false_2 in H by exact Hin.
    replace (depth >? 5) with false in H
      by (symmetry; rewrite Z.gtb_ltb; apply Z.ltb_ge; lia).
    rewrite Hh in H, Hleaf. unfold leaf_answer in Hleaf. revert H Hleaf.
    destruct (negb (Py.truthy h)); [discriminate|].
    destruct (same_as_parent ph h); [discriminate|].
    destruct (has_error_marker h); [discriminate|].
    destruct (Py.contains (L "Usage:") h && Py.contains (L "Commands:") h)%bool;
      [discriminate|].
    destruct (search true custom_format_re h); discriminate.
  - apply leaf_answer_none in Hleaf as Hh. destruct Hh as [h Hh].
    rewrite Hh in Hleaf.
    rewrite (scan_rec_commander _ _ _ _ _ _ _ Hin Hd Hh Hleaf) in H.
    revert H.
    destruct (scan_subcommands _ _ _ _ _ _ _) as [[subs sc3]|] eqn:Hsub; intros H;
      [|discriminate].
    injection H as <- <-.
    eapply (scan_subcommands_nodes _ _ _ _ IH _ []) in Hsub as [Hkeys Hok].
    + apply all_nodes_commander; [|exact Hok].
      intros name. rewrite Hkeys. unfold scanned_names. simpl. tauto.
    + intros k v [].
    + intros name. unfold scanned_names. simpl. split; [discriminate | tauto].
Qed.

Lemma scan_command_nodes cmd_path depth ph sc tree sc' n :
  scan_command run cmd_path depth ph sc = Some (tree, sc') ->
  node_of tree n -> P n.
Proof. intros H Hn. apply scan_rec_nodes in H. now apply H. Qed.

End ScanNodes.

(** ** The prober: how a node is tagged *)

Lemma leaf_answer_tagged ph help r : leaf_answer ph help = Some r -> well_tagged r.
Proof.
  unfold leaf_answer. destruct help as [h|];
    [| intros [= <-]; left; repeat split].
  destruct (negb (Py.truthy h)); [intros [= <-]; left; repeat split|].
  destruct (same_as_parent ph h); [intros [= <-]; left; repeat split|].
  destruct (has_error_marker h); [intros [= <-]; left; repeat split|].
  destruct (Py.contains (L "Usage:") h && Py.contains (L "Commands:") h)%bool;
    [discriminate|].
  destruct (search true custom_format_re h); intros [= <-]; right;
    (split; [reflexivity|]); [right; left | right; right]; split; reflexivity.
Qed.

Lemma commander_node_tagged h subs : well_tagged (commander_node h subs).
Proof. right. split; [apply commander_node_not_error|]. left. destruct subs; reflexivity. Qed.

(** X6.  Every node of a scanned tree is tagged in exactly one way: an
    error node has no format and no sub-commands; any other node has
    the format [commander], [custom] or [raw], and only a [commander]
    node has sub-commands. *)
Theorem scan_command_nodes_tagged (run : process) cmd_path depth ph sc tree sc' n :
  scan_command run cmd_path depth ph sc = Some (tree, sc') ->
  node_of tree n ->
  well_tagged n.
Proof.
  apply (scan_command_nodes run well_tagged).
  - left. repeat split.
  - left. repeat split.
  - apply leaf_answer_tagged.
  - intros h subs _. apply commander_node_tagged.
Qed.

Lemma scan_command_nodes_tagged_witness :
  well_tagged (error_node "invalid_subcommand").
Proof.
  apply (scan_command_nodes_tagged echo_tool [L "tool"] 0 None new_scanner
           (commander_node tool_help
              [(L "build", VDict (error_node "invalid_subcommand"))])
           (mark_probed [L "tool"; L "build"] (mark_probed [L "tool"] new_scanner))).
  - vm_compute. reflexivity.
  - eapply node_child; [reflexivity | left; reflexivity | apply node_root].
Defined.

Lemma leaf_answer_not_commander ph help r :
  leaf_answer ph help = Some r -> ~ has_format "commander" r.
Proof.
  unfold leaf_answer, has_format. destruct help as [h|];
    [| intros [= <-]; discriminate].
  destruct (negb (Py.truthy h)); [intros [= <-]; discriminate|].
  destruct (same_as_parent ph h); [intros [= <-]; discriminate|].
  destruct (has_error_marker h); [intros [= <-]; discriminate|].
  destruct (Py.contains (L "Usage:") h && Py.contains (L "Commands:") h)%bool;
    [discriminate|].
  destruct (search true custom_format_re h); intros [= <-]; discriminate.
Qed.

Lemma error_node_keys kind : sub_keys_complete (error_node kind).
Proof. intros H. discriminate H. Qed.

Lemma commander_node_subs h subs :
  get_dict (L "subcommands") (commander_node h subs) = subs.
Proof. destruct subs; reflexivity. Qed.

Lemma commander_node_commands h subs :
  get_list (L "commands") (commander_node h subs)
  = get_list (L "commands") (parse_commander_help h).
Proof. destruct subs; reflexivity. Qed.

Lemma scan_command_keys (run : process) cmd_path depth ph sc tree sc' n :
  scan_command run cmd_path depth ph sc = Some (tree, sc') ->
  node_of tree n ->
  sub_keys_complete n.
Proof.
  apply (scan_command_nodes run sub_keys_complete).
  - apply error_node_keys.
  - apply error_node_keys.
  - intros ph' help r Hleaf Hfmt. now apply leaf_answer_not_commander in Hleaf.
  - intros h subs Hkeys _.
    rewrite commander_node_subs, commander_node_commands. exact Hkeys.
Qed.

(** X7.  In a scanned tree, a structured node has a sub-command entry
    for exactly the names of its commands other than [help]: answers
    that are errors are kept, nothing else is added. *)
Theorem scan_command_subcommand_names (run : process) cmd_path depth ph sc tree sc' n :
  scan_command run cmd_path depth ph sc = Some (tree, sc') ->
  node_of tree n ->
  has_format "commander" n ->
  forall name,
    dict_has name (get_dict (L "subcommands") n) = true <->
    In name (map command_name (get_list (L "commands") n)) /\ name <> L "help".
Proof.
  intros Hscan Hn Hfmt. exact (scan_command_keys run _ _ _ _ _ _ _ Hscan Hn Hfmt).
Qed.

Lemma scan_command_subcommand_names_witness :
  dict_has (L "build")
    (get_dict (L "subcommands")
       (commander_node tool_help [(L "build", VDict (error_node "invalid_subcommand"))]))
  = true <->
  In (L "build")
     (map command_name
        (get_list (L "commands")
           (commander_node tool_help
              [(L "build", VDict (error_node "invalid_subcommand"))])))
  /\ L "build" <> L "help".
Proof.
  refine (scan_command_subcommand_names echo_tool [L "tool"] 0 None new_scanner
            (commander_node tool_help
               [(L "build", VDict (error_node "invalid_subcommand"))])
            (mark_probed [L "tool"; L "build"] (mark_probed [L "tool"] new_scanner))
            (commander_node tool_help
               [(L "build", VDict (error_node "invalid_subcommand"))])
            _ _ _ (L "build")).
  - vm_compute. reflexivity.
  - apply node_root.
  - reflexivity.
Defined.

(** ** The prober: how deep a tree is *)

Section ScanLevels.
Variable run : process.

Lemma within_levels_leaf depth r :
  depth <= 6 -> dict_get (L "subcommands") r = None ->
  (depth = 6 -> is_error_node r = true) ->
  within_levels depth r.
Proof.
  intros Hd Hnone Herr k n Hn. inversion Hn; subst; [|congruence].
  simpl. split; [lia|]. intros H. apply Herr. lia.
Qed.

Lemma scan_subcommands_levels scan cmd_path depth h cmds :
  (forall p ph s r s', scan p (depth + 1) ph s = Some (r, s') ->
                       within_levels (depth + 1) r) ->
  forall acc sc subs sc',
    scan_subcommands scan cmd_path depth h cmds acc sc = Some (subs, sc') ->
    (forall k v, In (k, v) acc ->
                 exists child, v = VDict child /\ within_levels (depth + 1) child) ->
    forall k v, In (k, v) subs ->
                exists child, v = VDict child /\ within_levels (depth + 1) child.
Proof.
  intros Hscan. induction cmds as [|cmd cmds IH]; intros acc sc subs sc' H Hacc.
  - simpl in H. injection H as <- <-. exact Hacc.
  - cbn [scan_subcommands] in H. revert H.
    destruct (negb (Py.str_eqb (command_name cmd) (L "help"))).
    + destruct (scan (cmd_path ++ [command_name cmd]) (depth + 1) (Some h) sc)
        as [[r s1]|] eqn:E; intros H; cbn beta iota in H; [|discriminate].
      apply Hscan in E. eapply IH; [exact H|].
      intros k v Hin. apply In_dict_set in Hin as [Hin| ->]; eauto.
    + intros H. eapply IH; eauto.
Qed.

Lemma within_levels_commander depth h subs :
  depth <= 5 ->
  (forall k v, In (k, v) subs ->
               exists child, v = VDict child /\ within_levels (depth + 1) child) ->
  within_levels depth (commander_node h subs).
Proof.
  intros Hd Hsubs k n Hn. inversion Hn; subst.
  - simpl. split; lia.
  - apply commander_node_children in H as ->.
    destruct (Hsubs _ _ H0) as (child' & Heq & Hok). injection Heq as <-.
    destruct (Hok _ _ H1) as [Hle Herr]. split; [lia|].
    intros Heq. apply Herr. lia.
Qed.

Lemma scan_rec_levels fuel :
  forall cmd_path depth ph sc r sc',
    scan_command_rec run fuel cmd_path depth ph sc = Some (r, sc') ->
    depth <= 6 ->
    within_levels depth r.
Proof.
  induction fuel as [|fuel IH]; intros cmd_path depth ph sc r sc' H Hd6;
    (destruct (decide (key_of cmd_path ∈ visited sc)) as [Hin|Hin];
     [ rewrite scan_rec_visited in H by exact Hin; injection H as <- <-;
       now apply within_levels_leaf |]);
    (destruct (Z_gt_le_dec depth 5) as [Hd|Hd];
     [ rewrite scan_rec_too_deep in H by assumption; injection H as <- <-;
       now apply within_levels_leaf |]);
    (destruct (leaf_answer ph (run_command run (help_argv cmd_path))) as [r0|] eqn:Hleaf;
     [ rewrite (scan_rec_leaf _ _ _ _ _ _ _ Hin Hd Hleaf) in H; injection H as <- <-;
       apply within_levels_leaf;
       [lia | eapply leaf_answer_no_children; eauto | intros; lia] |]).
  - apply leaf_answer_none in Hleaf as Hh. destruct Hh as [h Hh].
    cbn [scan_command_rec] in H. fold (key_of cmd_path) in H.
    fold (help_argv cmd_path) in H.
    rewrite bool_decide_eq_false_2 in H by exact Hin.
    replace (depth >? 5) with false in H
      by (symmetry; rewrite Z.gtb_ltb; apply Z.ltb_ge; lia).
    rewrite Hh in H, Hleaf. unfold leaf_answer in Hleaf. revert H Hleaf.
    destruct (negb (Py.truthy h)); [discriminate|].
    destruct (same_as_parent ph h); [discriminate|].
    destruct (has_error_marker h); [discriminate|].
    destruct (Py.contains (L "Usage:") h && Py.contains (L "Commands:") h)%bool;
      [discriminate|].
    destruct (search true custom_format_re h); discriminate.
  - apply leaf_answer_none in Hleaf as Hh. destruct Hh as [h Hh].
    rewrite Hh in Hleaf.
    rewrite (scan_rec_commander _ _ _ _ _ _ _ Hin Hd Hh Hleaf) in H.
    revert H.
    destruct (scan_subcommands _ _ _ _ _ _ _) as [[subs sc3]|] eqn:Hsub; intros H;
      [|discriminate].
    injection H as <- <-.
    apply within_levels_commander; [exact Hd|].
    eapply scan_subcommands_levels; [| exact Hsub | intros k v []].
    intros p ph' s r s' Hr. eapply IH; [exact Hr | lia].
Qed.

End ScanLevels.

(** X8.  A tree scanned from depth 0 has no node more than six levels
    below its root, and a node six levels below the root is an error
    node. *)
Theorem scan_command_tree_depth (run : process) cmd_path ph sc tree sc' k n :
  scan_command run cmd_path 0 ph sc = Some (tree, sc') ->
  node_at k tree n ->
  (k <= 6)%nat /\ (k = 6%nat -> is_error_node n = true).
Proof.
  intros Hscan Hn. apply scan_rec_levels in Hscan; [|lia].
  destruct (Hscan k n Hn) as [Hle Herr]. split; [lia|]. intros ->. now apply Herr.
Qed.

Lemma scan_command_tree_depth_witness :
  (1 <= 6)%nat /\ (1%nat = 6%nat -> is_error_node (error_node "invalid_subcommand") = true).
Proof.
  apply (scan_command_tree_depth echo_tool [L "tool"] None new_scanner
           (commander_node tool_help
              [(L "build", VDict (error_node "invalid_subcommand"))])
           (mark_probed [L "tool"; L "build"] (mark_probed [L "tool"] new_scanner))).
  - vm_compute. reflexivity.
  - eapply at_child; [reflexivity | left; reflexivity | apply at_root].
Defined.

(** ** The prober: the command lines that are run *)

Lemma NoDup_snoc {T : Type} (l : list T) (x : T) :
  List.NoDup l -> ~ In x l -> List.NoDup (l ++ [x]).
Proof.
  induction 1 as [|y l Hy Hl IH]; intros Hx; simpl.
  - constructor; [intros [] | constructor].
  - constructor.
    + rewrite in_app_iff. intros [H|[H|[]]]; [contradiction|].
      apply Hx. left. congruence.
    + apply IH. intros H. apply Hx. now right.
Qed.

Lemma help_argv_inj p q : help_argv p = help_argv q -> p = q.
Proof. unfold help_argv. intros H. now apply app_inj_tail in H as [H _]. Qed.

Lemma probes_ok_probe cmd_path sc :
  key_of cmd_path ∉ visited sc -> probes_ok sc -> probes_ok (mark_probed cmd_path sc).
Proof.
  intros Hin [Hnd Hall]. split; cbn [mark_probed invoked visited].
  - apply NoDup_snoc; [exact Hnd|]. intros H.
    destruct (Hall _ H) as (p & Hp & Hkey). apply help_argv_inj in Hp as <-.
    contradiction.
  - intros argv Hargv. apply in_app_iff in Hargv as [H|[<-|[]]].
    + destruct (Hall _ H) as (p & Hp & Hkey). exists p. split; [exact Hp|].
      apply elem_of_union_r. exact Hkey.
    + exists cmd_path. split; [reflexivity|].
      apply elem_of_union_l, elem_of_singleton. reflexivity.
Qed.

Lemma probes_ok_mark cmd_path sc :
  probes_ok sc -> probes_ok (mark_visited cmd_path sc).
Proof.
  intros [Hnd Hall]. split; [exact Hnd|]. cbn [mark_visited invoked visited].
  intros argv Hargv. destruct (Hall _ Hargv) as (p & Hp & Hkey).
  exists p. split; [exact Hp|]. apply elem_of_union_r. exact Hkey.
Qed.

Lemma probes_below_refl cmd_path sc : probes_below cmd_path sc sc.
Proof. intros argv H. now left. Qed.

Lemma probes_below_probe cmd_path sc :
  probes_below cmd_path sc (mark_probed cmd_path sc).
Proof.
  intros argv H. cbn [mark_probed invoked] in H.
  apply in_app_iff in H as [H|[<-|[]]]; [now left|].
  right. exists []. split; [reflexivity | intros []].
Qed.

Section ScanProbes.
Variable run : process.

Lemma scan_subcommands_probes scan cmd_path depth h cmds :
  (forall p d ph s r s', scan p d ph s = Some (r, s') -> probes_post p s s') ->
  forall acc sc subs sc',
    scan_subcommands scan cmd_path depth h cmds acc sc = Some (subs, sc') ->
    probes_ok sc ->
    probes_ok sc' /\
    forall argv, In argv (invoked sc') ->
                 In argv (invoked sc) \/
                 exists names, argv = cmd_path ++ names ++ [L "--help"] /\
                               ~ In (L "help") names /\ names <> [].
Proof.
  intros Hscan. induction cmds as [|cmd cmds IH]; intros acc sc subs sc' H Hok.
  - simpl in H. injection H as <- <-. split; [exact Hok | now left].
  - cbn [scan_subcommands] in H. revert H.
    destruct (Py.str_eqb (command_name cmd) (L "help")) eqn:Ehelp; cbn [negb].
    + intros H. eapply IH; eauto.
    + destruct (scan (cmd_path ++ [command_name cmd]) (depth + 1) (Some h) sc)
        as [[r s1]|] eqn:E; intros H; cbn beta iota in H; [|discriminate].
      apply str_eqb_neq in Ehelp.
      destruct (Hscan _ _ _ _ _ _ E Hok) as [Hok1 Hbelow1].
      destruct (IH _ _ _ _ H Hok1) as [Hok' Hbelow']. split; [exact Hok'|].
      intros argv Hargv. destruct (Hbelow' _ Hargv) as [H1|H1]; [|now right].
      destruct (Hbelow1 _ H1) as [H2|(names & -> & Hnames)]; [now left|].
      right. exists (command_name cmd :: names). rewrite <- app_assoc.
      split; [reflexivity|]. split; [|discriminate].
      intros [H3|H3]; [congruence | now apply Hnames].
Qed.

Lemma scan_rec_probes fuel :
  forall cmd_path depth ph sc r sc',
    scan_command_rec run fuel cmd_path depth ph sc = Some (r, sc') ->
    probes_post cmd_path sc sc'.
Proof.
  induction fuel as [|fuel IH]; intros cmd_path depth ph sc r sc' H Hok;
    (destruct (decide (key_of cmd_path ∈ visited sc)) as [Hin|Hin];
     [ rewrite scan_rec_visited in H by exact Hin; injection H as <- <-;
       split; [exact Hok | apply probes_below_refl] |]);
    (destruct (Z_gt_le_dec depth 5) as [Hd|Hd];
     [ rewrite scan_rec_too_deep in H by assumption; injection H as <- <-;
       split; [now apply probes_ok_mark | intros argv Hargv; now left] |]);
    (destruct (leaf_answer ph (run_command run (help_argv cmd_path))) as [r0|] eqn:Hleaf;
     [ rewrite (scan_rec_leaf _ _ _ _ _ _ _ Hin Hd Hleaf) in H; injection H as <- <-;
       split; [now apply probes_ok_probe | apply probes_below_probe] |]).
  - apply leaf_answer_none in Hleaf as Hh. destruct Hh as [h Hh].
    cbn [scan_command_rec] in H. fold (key_of cmd_path) in H.
    fold (help_argv cmd_path) in H.
    rewrite bool_decide_eq_false_2 in H by exact Hin.
    replace (depth >? 5) with false in H
      by (symmetry; rewrite Z.gtb_ltb; apply Z.ltb_ge; lia).
    rewrite Hh in H, Hleaf. unfold leaf_answer in Hleaf. revert H Hleaf.
    destruct (negb (Py.truthy h)); [discriminate|].
    destruct (same_as_parent ph h); [discriminate|].
    destruct (has_error_marker h); [discriminate|].
    destruct (Py.contains (L "Usage:") h && Py.contains (L "Commands:") h)%bool;
      [discriminate|].
    destruct (search true custom_format_re h); discriminate.
  - apply leaf_answer_none in Hleaf as Hh. destruct Hh as [h Hh].
    rewrite Hh in Hleaf.
    rewrite (scan_rec_commander _ _ _ _ _ _ _ Hin Hd Hh Hleaf) in H.
    revert H.
    destruct (scan_subcommands _ _ _ _ _ _ _) as [[subs sc3]|] eqn:Hsub; intros H;
      [|discriminate].
    injection H as <- <-.
    eapply scan_subcommands_probes in Hsub as [Hok' Hbelow];
      [| exact IH | now apply probes_ok_probe].
    split; [exact Hok'|].
    intros argv Hargv. destruct (Hbelow _ Hargv) as [H1|(names & -> & Hn & _)].
    + now apply probes_below_probe.
    + right. eauto.
Qed.

End ScanProbes.

(** X9.  A call of [scan_command] on a new scanner runs no command
    line twice, and every command line it runs is the command path,
    then sub-command names other than [help], then [--help]. *)
Theorem scan_command_probes (run : process) cmd_path depth ph tree sc' :
  scan_command run cmd_path depth ph new_scanner = Some (tree, sc') ->
  List.NoDup (invoked sc') /\
  forall argv, In argv (invoked sc') ->
               exists names, argv = cmd_path ++ names ++ [L "--help"] /\
                             ~ In (L "help") names.
Proof.
  intros H. apply scan_rec_probes in H.
  destruct H as [[Hnd _] Hbelow].
  - split; [constructor | intros argv []].
  - split; [exact Hnd|]. intros argv Hargv.
    destruct (Hbelow _ Hargv) as [[]|Hnames]. exact Hnames.
Qed.

Lemma scan_command_probes_witness :
  List.NoDup (invoked (mark_probed [L "tool"; L "build"] (mark_probed [L "tool"] new_scanner))) /\
  forall argv,
    In argv (invoked (mark_probed [L "tool"; L "build"] (mark_probed [L "tool"] new_scanner))) ->
    exists names, argv = [L "tool"] ++ names ++ [L "--help"] /\ ~ In (L "help") names.
Proof.
  apply (scan_command_probes echo_tool [L "tool"] 0 None
           (commander_node tool_help
              [(L "build", VDict (error_node "invalid_subcommand"))])).
  vm_compute. reflexivity.
Defined.

(** ** The prober: failure markers and plain output *)

Lemma error_marker_found marker h :
  In marker error_markers -> Py.contains marker h = true ->
  has_error_marker h = true /\ Py.truthy h = true.
Proof.
  intros Hin Hc. split.
  - unfold has_error_marker. apply existsb_exists. eauto.
  - destruct h; [|reflexivity].
    unfold error_markers in Hin. cbn [In] in Hin.
    destruct Hin as [<-|[<-|[<-|[<-|[<-|[]]]]]]; discriminate.
Qed.

(** X10.  A probe whose captured text contains any of the five failure
    markers, and is not the parent's help again, is not parsed: it
    answers a [command_execution_error] node that keeps at most the
    first 200 characters of the text, and no sub-command is scanned. *)
Theorem scan_command_failure_marker (run : process) cmd_path depth ph h sc marker :
  In marker error_markers ->
  Py.contains marker h = true ->
  key_of cmd_path ∉ visited sc ->
  depth <= 5 ->
  run_command run (help_argv cmd_path) = Some h ->
  same_as_parent ph h = false ->
  exists r preview,
    scan_command run cmd_path depth ph sc = Some (r, mark_probed cmd_path sc) /\
    dict_get (L "error") r = Some (VStr (L "command_execution_error")) /\
    dict_get (L "format") r = None /\
    dict_get (L "error_preview") r = Some (VStr preview) /\
    (length preview <= 200)%nat /\
    Py.startswith preview h = true.
Proof.
  intros Hmarker Hc Hin Hd Hrun Hparent.
  destruct (error_marker_found marker h Hmarker Hc) as [Hm Ht].
  exists (execution_error h), (firstn 200 h). split.
  - apply scan_rec_leaf; try assumption.
    rewrite Hrun. unfold leaf_answer. rewrite Ht. simpl negb. cbv iota.
    now rewrite Hparent, Hm.
  - split; [reflexivity|]. split; [reflexivity|]. split; [reflexivity|]. split.
    + apply firstn_le_length.
    + apply startswith_spec. exists (skipn 200 h). symmetry. apply firstn_skipn.
Qed.

Lemma scan_command_failure_marker_witness :
  exists r preview,
    scan_command failing_tool [L "tool"] 0 None new_scanner
    = Some (r, mark_probed [L "tool"] new_scanner) /\
    dict_get (L "error") r = Some (VStr (L "command_execution_error")) /\
    dict_get (L "format") r = None /\
    dict_get (L "error_preview") r = Some (VStr preview) /\
    (length preview <= 200)%nat /\
    Py.startswith preview
      (L "Usage: tool" ++ [nl] ++ L "Commands:" ++ [nl]
         ++ L "  run  Exit with Error: on failure") = true.
Proof.
  apply (scan_command_failure_marker failing_tool [L "tool"] 0 None _ new_scanner
           (L "Error:")).
  - right. right. right. left. reflexivity.
  - vm_compute. reflexivity.
  - apply not_elem_of_empty.
  - lia.
  - vm_compute. reflexivity.
  - reflexivity.
Defined.

Lemma ansi_no_match pre c s :
  c <> esc -> run false ansi_pattern (MState pre (c :: s) []) Some = None.
Proof.
  intros Hc. unfold ansi_pattern. cbn [cat run rest].
  destruct (ch esc c) eqn:E; [|reflexivity]. apply ch_true in E. contradiction.
Qed.

Lemma sub_empty_plain s :
  Forall (fun c => c <> esc) s ->
  forall pre, sub_empty_go ansi_pattern 0 pre s = s.
Proof.
  induction 1 as [|c s Hc _ IH]; intros pre; [reflexivity|].
  cbn [sub_empty_go]. rewrite ansi_no_match by exact Hc. now rewrite IH.
Qed.

(** X11.  When nothing that was captured holds an escape character,
    [run_command] returns the standard output followed by the standard
    error, unchanged. *)
Theorem run_command_plain (run : process) cmd stdout stderr :
  run cmd = Some (stdout, stderr) ->
  Forall (fun c => c <> esc) (stdout ++ stderr) ->
  run_command run cmd = Some (stdout ++ stderr).
Proof.
  intros Hrun Hplain. unfold run_command, strip_ansi, sub_empty.
  rewrite Hrun. now rewrite sub_empty_plain.
Qed.

Lemma run_command_plain_witness :
  run_command echo_tool [L "tool"; L "build"; L "--help"] = Some ([] ++ tool_help).
Proof.
  apply (run_command_plain echo_tool [L "tool"; L "build"; L "--help"] [] tool_help).
  - vm_compute. reflexivity.
  - vm_compute. repeat constructor; discriminate.
Defined.

(** ** The prober: escape sequences *)

Lemma final_not_param (c : ascii) : ansi_final c = true -> ansi_param c = false.
Proof. each_char c; discriminate. Qed.

Lemma ansi_match pre params final rest :
  Forall (fun c => ansi_param c = true) params ->
  ansi_final final = true ->
  run false ansi_pattern (MState pre (esc :: "["%char :: params ++ final :: rest) []) Some
  = Some (MState (final :: rev params ++ "["%char :: esc :: pre) rest []).
Proof.
  intros Hparams Hfinal. unfold ansi_pattern, star.
  cbn [cat run Re.rest consumed groups].
  change (ch esc esc) with true. change (ch "[" "[") with true. cbv iota.
  apply rep_greedy_all.
  - exact Hparams.
  - lia.
  - apply final_not_param, Hfinal.
  - cbn [run Re.rest consumed groups]. fold (ansi_final final). now rewrite Hfinal.
Qed.

Lemma rep_greedy_same_span p a a' s :
  forall lo hi pre pre' (k k' : str -> str -> option mstate),
    (forall q q' t n, length q = (a + n)%nat -> length q' = (a' + n)%nat ->
                      same_span a a' (k q t) (k' q' t)) ->
    (exists n, length pre = (a + n)%nat /\ length pre' = (a' + n)%nat) ->
    same_span a a' (rep_greedy p lo hi pre s k) (rep_greedy p lo hi pre' s k').
Proof.
  induction s as [|c s IH]; intros lo hi pre pre' k k' Hk (n & Hn & Hn').
  - assert (Hstop : same_span a a' (if Nat.eqb lo 0 then k pre [] else None)
                              (if Nat.eqb lo 0 then k' pre' [] else None)).
    { destruct (Nat.eqb lo 0); [eapply Hk; eassumption | exact I]. }
    simpl. destruct hi as [[|h]|]; exact Hstop.
  - assert (Hstop : same_span a a' (if Nat.eqb lo 0 then k pre (c :: s) else None)
                              (if Nat.eqb lo 0 then k' pre' (c :: s) else None)).
    { destruct (Nat.eqb lo 0); [eapply Hk; eassumption | exact I]. }
    assert (Hrec : forall lo' hi',
               same_span a a' (rep_greedy p lo' hi' (c :: pre) s k)
                         (rep_greedy p lo' hi' (c :: pre') s k')).
    { intros lo' hi'. apply IH; [exact Hk|]. exists (S n). simpl. lia. }
    cbn [rep_greedy]. destruct hi as [[|h]|]; [exact Hstop | |];
      (destruct (p c); [|exact Hstop];
       match goal with
       | |- same_span _ _ (match ?x with _ => _ end) (match ?y with _ => _ end) =>
           match x with
           | rep_greedy _ ?lo' ?hi' _ _ _ =>
               pose proof (Hrec lo' hi') as Hr;
               destruct x, y; try contradiction; [exact Hr | exact Hstop]
           end
       end).
Qed.

(** How much of the text one escape sequence takes does not depend on
    what came before. *)
Lemma ansi_same_span pre pre' s :
  same_span (length pre) (length pre')
            (run false ansi_pattern (MState pre s []) Some)
            (run false ansi_pattern (MState pre' s []) Some).
Proof.
  unfold ansi_pattern, star. cbn [cat run Re.rest consumed groups].
  destruct s as [|c s]; [exact I|]. destruct (ch esc c); [|exact I].
  destruct s as [|c2 s]; [exact I|]. destruct (ch "[" c2); [|exact I].
  apply rep_greedy_same_span.
  - intros q q' t n Hq Hq'. cbn [run Re.rest consumed groups].
    destruct t as [|c3 t]; [exact I|].
    destruct (either Py.is_az Py.is_AZ c3); [|exact I].
    exists (S n). simpl. lia.
  - exists 2%nat. simpl. lia.
Qed.

Lemma sub_empty_ansi_pre s :
  forall skip pre pre',
    sub_empty_go ansi_pattern skip pre s = sub_empty_go ansi_pattern skip pre' s.
Proof.
  induction s as [|c s IH]; intros skip pre pre'; [reflexivity|].
  cbn [sub_empty_go]. destruct skip as [|skip]; [|apply IH].
  pose proof (ansi_same_span pre pre' (c :: s)) as Hspan.
  destruct (run false ansi_pattern (MState pre (c :: s) []) Some) as [m|],
           (run false ansi_pattern (MState pre' (c :: s) []) Some) as [m'|];
    try contradiction.
  - destruct Hspan as (n & -> & ->).
    replace (length pre + n - length pre)%nat with n by lia.
    replace (length pre' + n - length pre')%nat with n by lia.
    destruct n; [f_equal|]; apply IH.
  - f_equal. apply IH.
Qed.

Lemma sub_empty_go_skip r a :
  forall pre s,
    sub_empty_go r (length a) pre (a ++ s) = sub_empty_go r 0 (rev a ++ pre) s.
Proof.
  induction a as [|c a IH]; intros pre s; [reflexivity|].
  cbn [length app sub_empty_go rev]. rewrite IH, <- app_assoc. reflexivity.
Qed.

Lemma sub_empty_plain_app plain :
  Forall (fun c => c <> esc) plain ->
  forall pre s,
    sub_empty_go ansi_pattern 0 pre (plain ++ s)
    = plain ++ sub_empty_go ansi_pattern 0 (rev plain ++ pre) s.
Proof.
  induction 1 as [|c plain Hc _ IH]; intros pre s; [reflexivity|].
  cbn [app sub_empty_go rev]. rewrite ansi_no_match by exact Hc.
  rewrite IH, <- app_assoc. reflexivity.
Qed.

Lemma sub_empty_go_match r pre c s m n :
  run false r (MState pre (c :: s) []) Some = Some m ->
  (length (consumed m) - length pre)%nat = S n ->
  sub_empty_go r 0 pre (c :: s) = sub_empty_go r n (c :: pre) s.
Proof. intros Hrun Hlen. cbn [sub_empty_go]. now rewrite Hrun, Hlen. Qed.

Lemma sub_empty_ansi_at pre params final rest :
  Forall (fun c => ansi_param c = true) params ->
  ansi_final final = true ->
  sub_empty_go ansi_pattern 0 pre (esc :: "["%char :: params ++ final :: rest)
  = sub_empty_go ansi_pattern 0 [] rest.
Proof.
  intros Hparams Hfinal.
  rewrite (sub_empty_go_match _ _ _ _ _ (length ("["%char :: params ++ [final]))
             (ansi_match pre params final rest Hparams Hfinal)).
  - replace ("["%char :: params ++ final :: rest)
      with (("["%char :: params ++ [final]) ++ rest)
      by (cbn [app]; now rewrite <- app_assoc).
    rewrite sub_empty_go_skip. apply sub_empty_ansi_pre.
  - cbn [consumed length]. rewrite !length_app, length_rev. cbn [length]. lia.
Qed.

(** X12.  [run_command] removes escape sequences: in the captured
    text, an escape character, a bracket, any digits and semicolons
    and one ASCII letter disappear, the text before them is kept when
    it holds no escape character, and the text after them is treated
    as a text of its own. *)
Theorem strip_ansi_sequence (plain params : str) (final : ascii) (rest : str) :
  Forall (fun c => c <> esc) plain ->
  Forall (fun c => ansi_param c = true) params ->
  ansi_final final = true ->
  strip_ansi (plain ++ esc :: "["%char :: params ++ final :: rest)
  = plain ++ strip_ansi rest.
Proof.
  intros Hplain Hparams Hfinal. unfold strip_ansi, sub_empty.
  rewrite sub_empty_plain_app by exact Hplain. f_equal.
  now apply sub_empty_ansi_at.
Qed.

Lemma strip_ansi_sequence_witness :
  strip_ansi (L "ok " ++ esc :: "["%char :: L "1;31" ++ "m"%char :: L "failed")
  = L "ok " ++ strip_ansi (L "failed").
Proof.
  apply (strip_ansi_sequence (L "ok ") (L "1;31") "m" (L "failed")).
  - repeat constructor; discriminate.
  - repeat constructor.
  - reflexivity.
Defined.

(** ** Slugs: the characters of a slug *)

Lemma cli_char_ok (c : ascii) : cli_slug_char (cli_char c).
Proof. each_char c; repeat split; discriminate. Qed.

(** X18.  No character of the slug of the CLI reference generator is
    a space, a slash or an upper-case ASCII letter. *)
Theorem cli_slugify_chars (x : str) :
  Forall cli_slug_char (MarkdownGenerator.slugify x).
Proof.
  rewrite cli_slugify_map.
  apply List.Forall_forall. intros c Hc.
  apply in_map_iff in Hc as (c0 & <- & _). apply cli_char_ok.
Qed.

Lemma slug_char_ok (c : ascii) : slug_char c -> api_slug_char c.
Proof.
  unfold slug_char, api_slug_char, kept, AztecjsMarkdownGenerator.is_hyphen.
  intros [Hfix Hkept]. split.
  - apply orb_true_iff in Hkept as [H|H]; [now left|right].
    unfold Py.ascii_eqb in H. now apply Ascii.eqb_eq in H.
  - revert Hfix Hkept. each_char c; intros; congruence.
Qed.

Lemma collapse_hyphens_length rounds :
  forall s, (length (AztecjsMarkdownGenerator.collapse_hyphens rounds s) <= length s)%nat.
Proof.
  induction rounds as [|n IH]; intros s; cbn [AztecjsMarkdownGenerator.collapse_hyphens];
    [lia|].
  fold two_hyphens one_hyphen. destruct (Py.contains two_hyphens s); [|lia].
  etransitivity; [apply IH|apply replace_dd_length].
Qed.

(** X19.  The slug of the API reference generator is no longer than
    the text, and each of its characters is a letter or digit or a
    hyphen, and is its own lower-case form. *)
Theorem api_slugify_chars (x : str) :
  (length (AztecjsMarkdownGenerator.slugify x) <= length x)%nat /\
  Forall api_slug_char (AztecjsMarkdownGenerator.slugify x).
Proof.
  split.
  - rewrite api_slugify_unfold.
    destruct (strip_with_inside AztecjsMarkdownGenerator.is_hyphen
                (AztecjsMarkdownGenerator.collapse_hyphens
                   (length (filtered x)) (filtered x))) as (u & v & Huv).
    assert (Hlen := collapse_hyphens_length (length (filtered x)) (filtered x)).
    rewrite Huv in Hlen at 1. rewrite !length_app in Hlen.
    assert (Hf : (length (filtered x) <= length x)%nat).
    { unfold filtered. etransitivity; [apply filter_length_le|]. now rewrite length_map. }
    lia.
  - destruct (api_slugify_shape x) as (Hchars & _).
    eapply List.Forall_impl; [|exact Hchars]. apply slug_char_ok.
Qed.

(** ** Rendering *)

Section RenderingMore.
Import MarkdownGenerator.

Lemma replace_char_by (a : ascii) (new s : str) :
  Py.replace [a] new s
  = flat_map (fun c => if Py.ascii_eqb a c then new else [c]) s.
Proof.
  unfold Py.replace. induction s as [|c s IH]; [reflexivity|].
  cbn [Py.replace_go Py.startswith flat_map length Nat.pred].
  rewrite andb_true_r. destruct (Py.ascii_eqb a c); simpl; now rewrite IH.
Qed.

Lemma ascii_eqb_false (a c : ascii) : Py.ascii_eqb a c = false -> c <> a.
Proof.
  unfold Py.ascii_eqb. intros H ->. now rewrite Ascii.eqb_refl in H.
Qed.

(** X14.  The text that [escape_html_entities] returns holds no angle
    bracket. *)
Theorem escape_html_entities_no_angle (text : str) :
  Forall no_angle (escape_html_entities text).
Proof.
  unfold escape_html_entities.
  change (L ">") with [">"%char]. change (L "<") with ["<"%char].
  rewrite !replace_char_by. apply Forall_flat_map.
  apply List.Forall_forall. intros c Hc.
  apply in_flat_map in Hc as (c0 & _ & Hc).
  destruct (Py.ascii_eqb ">" c) eqn:Hgt.
  - repeat constructor; discriminate.
  - constructor; [|constructor]. split; [|now apply ascii_eqb_false].
    destruct (Py.ascii_eqb "<" c0) eqn:Hlt.
    + cbn in Hc. destruct Hc as [<-|[<-|[<-|[<-|[]]]]]; discriminate.
    + destruct Hc as [<-|[]]. now apply ascii_eqb_false.
Qed.

(** X15.  [escape_html_entities] returns a text without angle
    brackets as it is. *)
Theorem escape_html_entities_plain (text : str) :
  Forall no_angle text -> escape_html_entities text = text.
Proof.
  unfold escape_html_entities.
  change (L ">") with [">"%char]. change (L "<") with ["<"%char].
  rewrite !replace_char_by.
  induction 1 as [|c s [Hlt Hgt] _ IH]; [reflexivity|].
  cbn [flat_map].
  destruct (Py.ascii_eqb "<" c) eqn:E1.
  { unfold Py.ascii_eqb in E1. apply Ascii.eqb_eq in E1. congruence. }
  cbn [app flat_map].
  destruct (Py.ascii_eqb ">" c) eqn:E2.
  { unfold Py.ascii_eqb in E2. apply Ascii.eqb_eq in E2. congruence. }
  cbn [app]. now rewrite IH.
Qed.

Lemma escape_html_entities_plain_witness :
  escape_html_entities (L "a & b") = L "a & b".
Proof.
  apply (escape_html_entities_plain (L "a & b")).
  repeat constructor; discriminate.
Defined.








(** X13.  Scanning and rendering compose: whatever the scanned
    program answers, the scan ends with a record that [generate]
    turns into a document. *)
Theorem scan_then_generate (cfg : config) (run : process) (base date : str) :
  exists data document,
    scan run base date = Some data /\ generate cfg data = Some document.
Proof.
  unfold scan.
  destruct (scan_command_total run [base] 0 None new_scanner) as (tree & sc' & ->).
  destruct (generate_total cfg
              [(L "command", VStr base); (L "scanned_at", VStr date);
               (L "data", VDict tree)]) as [document H].
  eauto.
Qed.

End RenderingMore.
